(** * Tendly dashboard: the filter and cost-bucketing pipeline of [Home.py]

    The development embeds the data transformations of [Home.py]:
    the three sidebar filters, [create_cost_buckets] (with the parts of
    [numpy.linspace] and [pandas.cut] it relies on), the four summary
    metrics, the category ranking, and the order in which [main] emits them.

    Numbers.  A finite binary64 value denotes a rational, and two floats
    compare exactly as the rationals they denote; costs, edges and sums are
    therefore values of [Qc].  The rounding of each arithmetic operation is
    not modelled.  [pyfloat] adds the NaN that [mean] and [median] return on
    an empty column.  [numpy.log10] and [10 ** x] are C library routines
    whose results the source does not fix: every definition that uses them
    takes them as the parameters [np_log10] and [np_power10]. *)

From Stdlib Require Import String Ascii ZArith QArith Qcanon Qround Qpower.
From Stdlib Require Import Lia Lqa Bool DecimalString DecimalPos DecimalN.
From Stdlib Require Import OrderedTypeEx.
From Stdlib Require Import List Permutation Sorted.
Import ListNotations.

Open Scope Qc_scope.

(* ================================================================== *)
(** * Part I: definitions *)
(* ================================================================== *)

(** ** Numbers *)

(** An integer literal such as [1000] or [1e6], as a float. *)
Definition qz (z : Z) : Qc := Q2Qc (inject_Z z).

(** A natural number (an element of [arange], a [len]) as a float. *)
Definition qn (n : nat) : Qc := qz (Z.of_nat n).

Definition Qcltb (x y : Qc) : bool := if Qclt_le_dec x y then true else false.
Definition Qcleb (x y : Qc) : bool := if Qclt_le_dec y x then false else true.
Definition Qceqb (x y : Qc) : bool := if Qc_eq_dec x y then true else false.

(** A float that may be NaN. *)
Inductive pyfloat : Type :=
| NaN
| Fin (q : Qc).

(** [x >= t] on a possibly-NaN float: every comparison with NaN is False. *)
Definition pf_geb (x : pyfloat) (t : Qc) : bool :=
  match x with
  | NaN => false
  | Fin q => Qcleb t q
  end.

(** ** Exceptions and results *)

Inductive exn : Type :=
| ValueError (msg : string).

Inductive outcome (A : Type) : Type :=
| Return (a : A)
| Raised (e : exn).

Arguments Return {A} a.
Arguments Raised {A} e.

(** ** Format specifications [.0f], [.1f] and [,] *)

(** Round to the nearest integer, ties to even: the rounding of Python's
    fixed-point formatting on the exact value of the float. *)
Definition round_half_even (q : Qc) : Z :=
  let f := Qfloor q in
  let r := q - qz f in
  if Qcltb r (qz 1 / qz 2) then f
  else if Qcltb (qz 1 / qz 2) r then (f + 1)%Z
  else if Z.even f then f else (f + 1)%Z.

Definition digits (z : Z) : string := NilZero.string_of_uint (N.to_uint (Z.to_N z)).

Definition Qcabs (q : Qc) : Qc := if Qcltb q 0 then - q else q.

Definition sign_str (q : Qc) : string := if Qcltb q 0 then "-"%string else ""%string.

(** [f"{q:.0f}"] *)
Definition fixed0 (q : Qc) : string :=
  (sign_str q ++ digits (round_half_even (Qcabs q)))%string.

(** [f"{q:.1f}"] *)
Definition fixed1 (q : Qc) : string :=
  let t := round_half_even (Qcabs q * qz 10) in
  (sign_str q ++ digits (t / 10) ++ "." ++ digits (t mod 10))%string.

(** Insert a comma before every complete group of three digits, on the
    reversed digit list; [k] counts the digits already in the current group. *)
Fixpoint group3 (k : nat) (rev_digits : list ascii) : list ascii :=
  match rev_digits with
  | [] => []
  | d :: rest =>
      match k with
      | 3%nat => ","%char :: d :: group3 1 rest
      | _ => d :: group3 (S k) rest
      end
  end.

(** [f"{n:,}"] for a length. *)
Definition fmt_count (n : nat) : string :=
  string_of_list_ascii
    (rev (group3 0 (rev (list_ascii_of_string (digits (Z.of_nat n)))))).

(** The euro sign of the source's f-strings. *)
Definition euro : string := "€".

(** The chain of lines 95-100, repeated verbatim for [end] at lines 102-107:
    a bucket edge becomes whole euros below 1000, whole thousands below
    1000000, and millions with one decimal from there on. *)
Definition format_edge (v : Qc) : string :=
  if Qcltb v (qz 1000) then (euro ++ fixed0 v)%string
  else if Qcltb v (qz 1000000) then (euro ++ fixed0 (v / qz 1000) ++ "K")%string
  else (euro ++ fixed1 (v / qz 1000000) ++ "M")%string.

(** Lines 176-184: the total value. *)
Definition format_total (total_value : Qc) : string :=
  if Qcleb (qz 1000000000) total_value then
    (euro ++ fixed1 (total_value / qz 1000000000) ++ "B")%string
  else if Qcleb (qz 1000000) total_value then
    (euro ++ fixed1 (total_value / qz 1000000) ++ "M")%string
  else if Qcleb (qz 1000) total_value then
    (euro ++ fixed1 (total_value / qz 1000) ++ "K")%string
  else (euro ++ fixed0 total_value)%string.

(** [f"{x:.0f}"] and [f"{x / d:.1f}"] on a float that may be NaN. *)
Definition pf_fixed0 (x : pyfloat) : string :=
  match x with NaN => "nan"%string | Fin q => fixed0 q end.

Definition pf_fixed1_div (x : pyfloat) (d : Qc) : string :=
  match x with NaN => "nan"%string | Fin q => fixed1 (q / d) end.

(** Lines 188-194 for the mean, repeated verbatim at 198-204 for the median. *)
Definition format_stat (x : pyfloat) : string :=
  if pf_geb x (qz 1000000) then (euro ++ pf_fixed1_div x (qz 1000000) ++ "M")%string
  else if pf_geb x (qz 1000) then (euro ++ pf_fixed1_div x (qz 1000) ++ "K")%string
  else (euro ++ pf_fixed0 x)%string.

(** ** Tender records and data frames *)

(** One row of the query of [load_tender_data]: its 21 columns.  A SQL NULL
    (and a date that [pd.to_datetime] could not parse) is [None]; the query
    keeps only rows whose [estimated_cost] is present. *)
Record TenderRecord : Type := mkTender {
  procurement_id : option Z;
  tender_name : option string;
  short_description : option string;
  estimated_cost : Qc;
  is_cost_classified : option bool;
  show_cost : option bool;
  procedure_type_code : option string;
  procurement_type_code : option string;
  procurement_sector_code : option string;
  primary_cpv_code : option string;
  primary_cpv_name : option string;
  nuts_code : option string;
  location_additional_info : option string;
  submission_deadline : option Z;
  publication_date : option Z;
  duration_in_months : option Z;
  is_eu_financing : option bool;
  is_green : option bool;
  has_social_aspects : option bool;
  has_innovative_aspects : option bool;
  created_at : option Z
}.

(** A data frame of tenders: the rows in index order and, once
    [create_cost_buckets] has run, the categorical column [cost_bucket],
    held as category codes ([None] is NaN, [Some i] is the [i]-th label). *)
Record DataFrame : Type := mkFrame {
  df_rows : list TenderRecord;
  df_cost_bucket : option (list (option nat))
}.

Definition df_len (df : DataFrame) : nat := length (df_rows df).

(** [df['estimated_cost']] *)
Definition cost_column (df : DataFrame) : list Qc := map estimated_cost (df_rows df).

(** Keep the entries of [xs] whose mask entry is True. *)
Fixpoint select {A : Type} (xs : list A) (mask : list bool) : list A :=
  match xs, mask with
  | x :: xs', b :: mask' => if b then x :: select xs' mask' else select xs' mask'
  | _, _ => []
  end.

(** [df[mask]]: boolean indexing keeps every column of the selected rows. *)
Definition df_select (df : DataFrame) (mask : list bool) : DataFrame :=
  {| df_rows := select (df_rows df) mask;
     df_cost_bucket := option_map (fun col => select col mask) (df_cost_bucket df) |}.

(** [df['cost_bucket'] = col] *)
Definition df_set_cost_bucket (df : DataFrame) (col : list (option nat)) : DataFrame :=
  {| df_rows := df_rows df; df_cost_bucket := Some col |}.

(** ** The sidebar filters (lines 153-163) *)

(** [(df['estimated_cost'] >= min_cost) & (df['estimated_cost'] <= max_cost)] *)
Definition cost_mask (min_cost max_cost : Qc) (df : DataFrame) : list bool :=
  map (fun r => Qcleb min_cost (estimated_cost r) && Qcleb (estimated_cost r) max_cost)
      (df_rows df).

(** [df[col] == value] on a nullable text column: a null never compares equal. *)
Definition eq_mask (col : TenderRecord -> option string) (value : string)
    (df : DataFrame) : list bool :=
  map (fun r => match col r with
                | Some s => String.eqb s value
                | None => false
                end) (df_rows df).

Definition filter_cost (min_cost max_cost : Qc) (df : DataFrame) : DataFrame :=
  df_select df (cost_mask min_cost max_cost df).

Definition filter_sector (selected_sector : string) (df : DataFrame) : DataFrame :=
  if negb (String.eqb selected_sector "All") then
    df_select df (eq_mask procurement_sector_code selected_sector df)
  else df.

Definition filter_procedure (selected_procedure : string) (df : DataFrame) : DataFrame :=
  if negb (String.eqb selected_procedure "All") then
    df_select df (eq_mask procedure_type_code selected_procedure df)
  else df.

(** Lines 154-163: the cost range first, then the sector, then the procedure. *)
Definition apply_filters (df : DataFrame) (min_cost max_cost : Qc)
    (selected_sector selected_procedure : string) : DataFrame :=
  filter_procedure selected_procedure
    (filter_sector selected_sector (filter_cost min_cost max_cost df)).

(** ** Column reductions *)

Definition Qcmin (x y : Qc) : Qc := if Qcltb y x then y else x.
Definition Qcmax (x y : Qc) : Qc := if Qcltb x y then y else x.

(** [Series.min()] and [Series.max()]; [None] on an empty column (pandas: NaN). *)
Definition series_min (xs : list Qc) : option Qc :=
  match xs with
  | [] => None
  | x :: rest => Some (fold_left Qcmin rest x)
  end.

Definition series_max (xs : list Qc) : option Qc :=
  match xs with
  | [] => None
  | x :: rest => Some (fold_left Qcmax rest x)
  end.

(** [Series.sum()]: 0 on an empty column. *)
Definition series_sum (xs : list Qc) : Qc := fold_left Qcplus xs 0.

(** [Series.mean()]: NaN on an empty column. *)
Definition series_mean (xs : list Qc) : pyfloat :=
  match xs with
  | [] => NaN
  | _ => Fin (series_sum xs / qn (length xs))
  end.

Fixpoint insert_asc (x : Qc) (l : list Qc) : list Qc :=
  match l with
  | [] => [x]
  | y :: l' => if Qcleb x y then x :: l else y :: insert_asc x l'
  end.

Definition sort_asc (l : list Qc) : list Qc := fold_right insert_asc [] l.

(** [Series.median()]: the middle value of the sorted column, the mean of the
    two middle values for an even length, NaN on an empty column. *)
Definition series_median (xs : list Qc) : pyfloat :=
  match xs with
  | [] => NaN
  | _ =>
      let s := sort_asc xs in
      let n := length s in
      if Nat.even n then
        Fin ((nth (n / 2 - 1) s 0 + nth (n / 2) s 0) / qz 2)
      else Fin (nth (n / 2) s 0)
  end.

(** ** [numpy.linspace] and [pandas.cut] *)

(** [np.arange(0, num)] as floats. *)
Definition arange (num : nat) : list Qc := map qn (seq 0 num).

(** Overwrite the last entry: [y[-1] = v]. *)
Fixpoint set_last (y : list Qc) (v : Qc) : list Qc :=
  match y with
  | [] => []
  | [_] => [v]
  | a :: rest => a :: set_last rest v
  end.

(** [np.linspace(start, stop, num)] with the default [endpoint=True], as
    numpy computes it: [arange * step + start] with [step = delta / div],
    the product taken as [(arange / div) * delta] when the step is zero,
    and the last sample overwritten with [stop]. *)
Definition np_linspace (start stop : Qc) (num : nat) : list Qc :=
  let div := (num - 1)%nat in
  let delta := stop - start in
  let y := arange num in
  let y :=
    if (0 <? div)%nat then
      let step := delta / qn div in
      if Qceqb step 0 then map (fun i => i / qn div * delta) y
      else map (fun i => i * step) y
    else map (fun i => i * delta) y in
  let y := map (fun v => v + start) y in
  if (1 <? num)%nat then set_last y stop else y.

(** [Index.is_monotonic_increasing]: no entry is below its predecessor. *)
Fixpoint is_monotonic_increasing (bins : list Qc) : bool :=
  match bins with
  | a :: (b :: _) as rest => Qcleb a b && is_monotonic_increasing rest
  | _ => true
  end.

(** Whether a list repeats an entry ([len(unique(l)) < len(l)],
    [len(set(l)) != len(l)]). *)
Fixpoint has_duplicates {A : Type} (eqb : A -> A -> bool) (l : list A) : bool :=
  match l with
  | [] => false
  | x :: rest => existsb (eqb x) rest || has_duplicates eqb rest
  end.

(** [bins.searchsorted(x, side='left')] on sorted [bins]: the index of the
    first entry that is not below [x]. *)
Fixpoint searchsorted_left (bins : list Qc) (x : Qc) : nat :=
  match bins with
  | [] => 0
  | b :: rest => if Qcltb b x then S (searchsorted_left rest x) else 0
  end.

(** The code that [pd.cut(..., include_lowest=True)] gives one value, with
    the default [right=True]: the insertion index, forced to 1 for a value
    equal to the first edge; an index of 0 or [len(bins)] is out of range
    and becomes NaN. *)
Definition cut_code (bins : list Qc) (x : Qc) : option nat :=
  let id := searchsorted_left bins x in
  let id := match bins with
            | b0 :: _ => if Qceqb x b0 then 1%nat else id
            | [] => id
            end in
  if (id =? length bins)%nat || (id =? 0)%nat then None else Some (id - 1)%nat.

(** [pd.cut(x, bins=bins, labels=labels, include_lowest=True)] for an array
    of edges and a list of labels.  pandas raises [ValueError] in turn when
    the edges decrease somewhere, when an edge repeats (unless there are
    exactly two edges), when a label repeats (the result is an ordered
    categorical), and when the number of labels is not one less than the
    number of edges.  The messages are shortened to their fixed part. *)
Definition pd_cut (x : list Qc) (bins : list Qc) (labels : list string)
    : outcome (list (option nat)) :=
  if negb (is_monotonic_increasing bins) then
    Raised (ValueError "bins must increase monotonically.")
  else if has_duplicates Qceqb bins && negb (length bins =? 2)%nat then
    Raised (ValueError "Bin edges must be unique")
  else if has_duplicates String.eqb labels then
    Raised (ValueError "labels must be unique if ordered=True; pass ordered=False for duplicate labels")
  else if negb (length labels =? length bins - 1)%nat then
    Raised (ValueError "Bin labels must be one fewer than the number of bin edges")
  else Return (map (cut_code bins) x).

(** ** [create_cost_buckets] (lines 77-114) *)

(** Lines 91-109: one label per pair of consecutive edges. *)
Definition make_bucket_labels (bucket_edges : list Qc) : list string :=
  map (fun i =>
         let start := nth i bucket_edges 0 in
         let end_ := nth (i + 1) bucket_edges 0 in
         let start_str := format_edge start in
         let end_str := format_edge end_ in
         (start_str ++ " - " ++ end_str)%string)
      (seq 0 (length bucket_edges - 1)).

Section Libm.

(** [numpy.log10] on a positive float, and [10 ** x]. *)
Variable np_log10 : Qc -> Qc.
Variable np_power10 : Qc -> Qc.

(** Lines 83-88, for a positive [min_cost]. *)
Definition make_bucket_edges (min_cost max_cost : Qc) (num_buckets : nat) : list Qc :=
  let log_min := np_log10 min_cost in
  let log_max := np_log10 max_cost in
  let log_edges := np_linspace log_min log_max (num_buckets + 1) in
  map np_power10 log_edges.

(** [create_cost_buckets(df, num_buckets)].

    With a positive minimum the edges are finite and the body runs as
    written.  Otherwise [log10] yields NaN (empty column, negative cost)
    or [-inf] (zero cost) and the edges are not rationals: NaN among the
    edges makes [pd.cut] raise, except for [num_buckets = 0] over a zero
    minimum, where the single edge is [10 ** -inf = 0.0], there is no
    label, and every row falls out of range. *)
Definition create_cost_buckets (df : DataFrame) (num_buckets : nat)
    : outcome (DataFrame * list Qc * list string) :=
  match series_min (cost_column df), series_max (cost_column df) with
  | Some min_cost, Some max_cost =>
      if Qcltb 0 min_cost then
        let bucket_edges := make_bucket_edges min_cost max_cost num_buckets in
        let bucket_labels := make_bucket_labels bucket_edges in
        match pd_cut (cost_column df) bucket_edges bucket_labels with
        | Return codes =>
            Return (df_set_cost_bucket df codes, bucket_edges, bucket_labels)
        | Raised e => Raised e
        end
      else if Qceqb min_cost 0 && (num_buckets =? 0)%nat then
        Return (df_set_cost_bucket df (map (fun _ => None) (df_rows df)), [0], [])
      else Raised (ValueError "bins must increase monotonically.")
  | _, _ => Raised (ValueError "bins must increase monotonically.")
  end.

End Libm.

(** ** Summary metrics and the category ranking *)

(** One row of [category_value]: a category with the sum and the count of
    the costs of its tenders. *)
Record CategoryRow : Type := mkCategory {
  cat_name : string;
  cat_sum : Qc;
  cat_count : nat
}.

(** Whether a row belongs to the group of key [k]; a null name belongs to
    no group, as [groupby] leaves null keys out ([dropna=True]). *)
Definition has_category (k : string) (r : TenderRecord) : bool :=
  match primary_cpv_name r with
  | Some s => String.eqb s k
  | None => false
  end.

Fixpoint insert_key (k : string) (keys : list string) : list string :=
  match keys with
  | [] => [k]
  | h :: rest =>
      match String.compare k h with
      | Lt => k :: keys
      | Eq => keys
      | Gt => h :: insert_key k rest
      end
  end.

Fixpoint present_names (rows : list TenderRecord) : list string :=
  match rows with
  | [] => []
  | r :: rest =>
      match primary_cpv_name r with
      | Some s => s :: present_names rest
      | None => present_names rest
      end
  end.

(** The group keys of [groupby('primary_cpv_name')]: the distinct non-null
    names, in ascending order. *)
Definition group_keys (df : DataFrame) : list string :=
  fold_right insert_key [] (present_names (df_rows df)).

(** [df.groupby('primary_cpv_name')['estimated_cost'].agg(['sum', 'count']).reset_index()] *)
Definition groupby_sum_count (df : DataFrame) : list CategoryRow :=
  map (fun k =>
         let group := filter (has_category k) (df_rows df) in
         {| cat_name := k;
            cat_sum := series_sum (map estimated_cost group);
            cat_count := length group |})
      (group_keys df).

Fixpoint insert_by_sum (c : CategoryRow) (l : list CategoryRow) : list CategoryRow :=
  match l with
  | [] => [c]
  | h :: rest =>
      if Qcltb (cat_sum c) (cat_sum h) then h :: insert_by_sum c rest else c :: l
  end.

(** [sort_values('sum', ascending=False)].  Rows with equal sums keep their
    relative order here; numpy's default sort does not promise that, and no
    statement below depends on the order of equal sums. *)
Definition sort_by_sum_desc (l : list CategoryRow) : list CategoryRow :=
  fold_right insert_by_sum [] l.

(** Lines 291-292. *)
Definition category_value (df : DataFrame) : list CategoryRow :=
  firstn 10 (sort_by_sum_desc (groupby_sum_count df)).

Definition option_nat_eqb (a b : option nat) : bool :=
  match a, b with
  | Some x, Some y => (x =? y)%nat
  | None, None => true
  | _, _ => false
  end.

Definition count_code (codes : list (option nat)) (i : nat) : nat :=
  length (filter (option_nat_eqb (Some i)) codes).

(** [df['cost_bucket'].value_counts().sort_index()]: one count per category,
    in category order, empty categories included, NaN rows left out. *)
Definition bucket_counts (codes : list (option nat)) (bucket_labels : list string)
    : list (string * nat) :=
  map (fun i => (nth i bucket_labels ""%string, count_code codes i))
      (seq 0 (length bucket_labels)).

(** ** [main] (lines 153-304) *)

(** What [main] hands to Streamlit, in order.  An uncaught exception ends
    the run. *)
Inductive st_event : Type :=
| Metric (label value : string)
| Markdown (body : string)
| Warning (body : string)
| CostChart (bars : list (string * nat))
| CategoryChart (rows : list CategoryRow)
| Uncaught (e : exn).

Section Dashboard.

Variable np_log10 : Qc -> Qc.
Variable np_power10 : Qc -> Qc.

(** Lines 165-167. *)
Definition bucket_step (filtered_df : DataFrame)
    : outcome (DataFrame * list Qc * list string) :=
  if (0 <? df_len filtered_df)%nat then
    create_cost_buckets np_log10 np_power10 filtered_df 50
  else Return (filtered_df, [], []).

(** Lines 170-205: the four metrics. *)
Definition metrics (filtered_df : DataFrame) : list st_event :=
  let total_value := series_sum (cost_column filtered_df) in
  let avg_cost := series_mean (cost_column filtered_df) in
  let median_cost := series_median (cost_column filtered_df) in
  [ Metric "Total Tenders" (fmt_count (df_len filtered_df));
    Metric "Total Value" (format_total total_value);
    Metric "Average Cost" (format_stat avg_cost);
    Metric "Median Cost" (format_stat median_cost) ].

(** [main] from the filters on, given the loaded table and the values of
    the three sidebar widgets.  The sector and procedure charts, the
    timeline and the table of recent tenders are not modelled. *)
Definition main (df : DataFrame) (min_cost max_cost : Qc)
    (selected_sector selected_procedure : string) : list st_event :=
  let filtered_df :=
    apply_filters df min_cost max_cost selected_sector selected_procedure in
  match bucket_step filtered_df with
  | Raised e => [Uncaught e]
  | Return (filtered_df, bucket_edges, bucket_labels) =>
      metrics filtered_df ++ [Markdown "---"] ++
      if (df_len filtered_df =? 0)%nat then
        [Warning "No data available for the selected filters."]
      else
        let codes := match df_cost_bucket filtered_df with
                     | Some col => col
                     | None => []
                     end in
        [ CostChart (bucket_counts codes bucket_labels);
          CategoryChart (category_value filtered_df) ]
  end.

End Dashboard.

(** ** A stand-in for the C library

    For evaluating the pipeline on concrete tables: the chord
    interpolation of the decimal exponential, exact at the integer powers
    of ten and linear between two consecutive ones, and its inverse.  It is
    coarse inside a decade; the statements of Part II hold for every pair
    of functions and use it only to exhibit inputs. *)

Definition pow10z (k : Z) : Qc := Q2Qc (Qpower (inject_Z 10) k).

Fixpoint decade_up (fuel : nat) (v : Qc) : Z :=
  match fuel with
  | O => 0%Z
  | S fuel' => if Qcltb v (qz 10) then 0%Z else (1 + decade_up fuel' (v / qz 10))%Z
  end.

Fixpoint decade_down (fuel : nat) (v : Qc) : Z :=
  match fuel with
  | O => 0%Z
  | S fuel' => if Qcleb (qz 1) v then 0%Z else (decade_down fuel' (v * qz 10) - 1)%Z
  end.

(** The integer [k] with [10^k <= v < 10^(k+1)], for a positive [v]. *)
Definition floor_log10 (v : Qc) : Z :=
  let fuel := (Pos.to_nat (Pos.size (Z.to_pos (Qnum v))) + Pos.to_nat (Pos.size (Qden v)))%nat in
  if Qcleb (qz 1) v then decade_up fuel v else decade_down fuel v.

Definition log10_chord (v : Qc) : Qc :=
  let k := floor_log10 v in
  qz k + (v / pow10z k - qz 1) / qz 9.

Definition pow10_chord (x : Qc) : Qc :=
  let k := Qfloor x in
  pow10z k * (qz 1 + qz 9 * (x - qz k)).

(** A tender whose only known fields are its cost, sector and category. *)
Definition tender (cost : Z) (sector category : option string) : TenderRecord :=
  {| procurement_id := None; tender_name := None; short_description := None;
     estimated_cost := qz cost;
     is_cost_classified := None; show_cost := None;
     procedure_type_code := None; procurement_type_code := None;
     procurement_sector_code := sector;
     primary_cpv_code := None; primary_cpv_name := category;
     nuts_code := None; location_additional_info := None;
     submission_deadline := None; publication_date := None;
     duration_in_months := None;
     is_eu_financing := None; is_green := None;
     has_social_aspects := None; has_innovative_aspects := None;
     created_at := None |}.

(** The table as it comes from the loader: no [cost_bucket] column yet. *)
Definition loaded (rows : list TenderRecord) : DataFrame :=
  {| df_rows := rows; df_cost_bucket := None |}.

(** A subsequence: some entries left out, the others in their order. *)
Inductive subseq {A : Type} : list A -> list A -> Prop :=
| subseq_nil : subseq [] []
| subseq_skip : forall x l1 l2, subseq l1 l2 -> subseq l1 (x :: l2)
| subseq_keep : forall x l1 l2, subseq l1 l2 -> subseq (x :: l1) (x :: l2).

(** The three predicates that the sidebar filters test on one row. *)
Definition cost_ok (min_cost max_cost : Qc) (r : TenderRecord) : bool :=
  Qcleb min_cost (estimated_cost r) && Qcleb (estimated_cost r) max_cost.

Definition choice_ok (col : TenderRecord -> option string) (selected : string)
    (r : TenderRecord) : bool :=
  String.eqb selected "All" ||
  match col r with
  | Some s => String.eqb s selected
  | None => false
  end.

(** ** Example tables *)

(** Four tenders, one per power of ten from 100 to 100000. *)
Definition decades_table : DataFrame :=
  loaded [tender 100 None None; tender 1000 None None;
          tender 10000 None None; tender 100000 None None].

(** What the range (500, 50000) leaves of [decades_table]. *)
Definition two_row_table : DataFrame :=
  loaded [tender 1000 None None; tender 10000 None None].

(** Three tenders of one and the same cost. *)
Definition flat_table : DataFrame :=
  loaded [tender 5000 None None; tender 5000 None None; tender 5000 None None].

(** Two tenders in different sectors. *)
Definition sector_table : DataFrame :=
  loaded [tender 100 (Some "A"%string) (Some "Roads"%string);
          tender 200 (Some "B"%string) None].

(** The interval of bucket [i] as [pd.cut] draws it with [right=True] and
    [include_lowest=True]: open at its lower edge, closed at its upper
    edge, the first bucket closed at both. *)
Definition in_bucket (edges : list Qc) (c : Qc) (i : nat) : Prop :=
  (i + 1 < length edges)%nat
  /\ ((nth i edges 0 < c /\ c <= nth (i + 1) edges 0)
      \/ (i = 0%nat /\ c = nth 0 edges 0)).

(** [decades_table] cut into three buckets at the powers of ten. *)
Definition decades_edges : list Qc := map qz [100; 1000; 10000; 100000]%Z.

Definition decades_labels : list string :=
  ["€100 - €1K"; "€1K - €10K"; "€10K - €100K"]%string.

Definition decades_bucketed : DataFrame :=
  df_set_cost_bucket decades_table [Some 0; Some 0; Some 1; Some 2]%nat.

(** The order of [sort_values('sum', ascending=False)]: a row stands before
    every row whose sum is not larger. *)
Definition sum_ge (a b : CategoryRow) : Prop := cat_sum b <= cat_sum a.

(** The order of the group keys. *)
Definition key_lt (a b : string) : Prop := String.compare a b = Lt.

(** Whether a row has a category at all. *)
Definition has_name (r : TenderRecord) : bool :=
  match primary_cpv_name r with
  | Some _ => true
  | None => false
  end.

(** The pairs of neighbours of a list, in order. *)
Definition adjacent {A : Type} (l : list A) : list (A * A) := combine l (tl l).

(** The label of a bucket from its two edges (line 109). *)
Definition label_of_edges (p : Qc * Qc) : string :=
  (format_edge (fst p) ++ " - " ++ format_edge (snd p))%string.

(** The number that a bucket edge below a million shows: 0 stands for an
    edge below 1000, shown in euros; an edge from 1000 on shows its
    rounded thousands. *)
Definition edge_class (e : Qc) : Z :=
  if Qcltb e (qz 1000) then 0%Z else round_half_even (e / qz 1000).

(** ** The widgets, the other charts and the table of [main] *)

(** [Series.dropna()] *)
Fixpoint dropna {A : Type} (l : list (option A)) : list A :=
  match l with
  | [] => []
  | Some a :: rest => a :: dropna rest
  | None :: rest => dropna rest
  end.

(** [Series.unique()]: the distinct values, each at its first occurrence. *)
Fixpoint unique_by {K : Type} (eqb : K -> K -> bool) (l : list K) : list K :=
  match l with
  | [] => []
  | x :: rest => x :: filter (fun y => negb (eqb x y)) (unique_by eqb rest)
  end.

(** How often a value occurs. *)
Definition count_of {K : Type} (eqb : K -> K -> bool) (k : K) (l : list K) : nat :=
  length (filter (eqb k) l).

(** A stable sort: [before x y] tells that [x] may stand before [y]. *)
Fixpoint insert_by {A : Type} (before : A -> A -> bool) (x : A) (l : list A) : list A :=
  match l with
  | [] => [x]
  | y :: l' => if before x y then x :: l else y :: insert_by before x l'
  end.

Definition sort_by {A : Type} (before : A -> A -> bool) (l : list A) : list A :=
  fold_right (insert_by before) [] l.

(** The non-null values of a text column, in row order. *)
Definition column_values (col : TenderRecord -> option string) (df : DataFrame)
    : list string :=
  dropna (map col (df_rows df)).

(** Lines 139-141: [min_value] and [max_value] of the cost slider, which
    are also the two ends of its default value; [None] on an empty table,
    where both are NaN. *)
Definition slider_bounds (df : DataFrame) : option (Qc * Qc) :=
  match series_min (cost_column df), series_max (cost_column df) with
  | Some lo, Some hi => Some (lo, hi)
  | _, _ => None
  end.

(** Lines 146 and 150: [['All'] + sorted(df[col].dropna().unique().tolist())],
    the options of a select box. *)
Definition select_options (col : TenderRecord -> option string) (df : DataFrame)
    : list string :=
  "All"%string :: sort_by String.leb (unique_by String.eqb (column_values col df)).

(** Lines 246 and 258: [df[col].value_counts()], the distinct non-null
    values with their frequencies, the most frequent first.  Values of
    equal frequency keep the order of their first occurrence here; no
    statement below depends on it. *)
Definition value_counts (col : TenderRecord -> option string) (df : DataFrame)
    : list (string * nat) :=
  let values := column_values col df in
  sort_by (fun a b => (snd b <=? snd a)%nat)
          (map (fun k => (k, count_of String.eqb k values))
               (unique_by String.eqb values)).

Definition sector_counts (df : DataFrame) : list (string * nat) :=
  value_counts procurement_sector_code df.

Definition procedure_counts (df : DataFrame) : list (string * nat) :=
  value_counts procedure_type_code df.


Section Timeline.

(** [Timestamp.to_period('M')]: the month of a timestamp, months numbered
    in calendar order. *)
Variable to_period_M : Z -> Z.



End Timeline.

(** Insert the thousands separators of the format specification [,]. *)
Definition with_commas (ds : string) : string :=
  string_of_list_ascii (rev (group3 0 (rev (list_ascii_of_string ds)))).

(** [f"{q:,.0f}"] *)
Definition fixed0_grouped (q : Qc) : string :=
  (sign_str q ++ with_commas (digits (round_half_even (Qcabs q))))%string.

(** One row of the table of recent tenders (lines 310-314): five columns of
    the tender, the cost as text.  The cost of a loaded row is never null,
    so the ["N/A"] of line 313 does not arise. *)
Record DisplayRow : Type := mkDisplay {
  disp_tender_name : option string;
  disp_estimated_cost : string;
  disp_primary_cpv_name : option string;
  disp_procurement_sector_code : option string;
  disp_submission_deadline : option Z
}.

Definition display_row (r : TenderRecord) : DisplayRow :=
  {| disp_tender_name := tender_name r;
     disp_estimated_cost := (euro ++ fixed0_grouped (estimated_cost r))%string;
     disp_primary_cpv_name := primary_cpv_name r;
     disp_procurement_sector_code := procurement_sector_code r;
     disp_submission_deadline := submission_deadline r |}.

(** The order of [sort_values('submission_deadline', ascending=False,
    na_position='last')]: later deadlines first, rows without one last. *)
Definition deadline_before (a b : DisplayRow) : bool :=
  match disp_submission_deadline a, disp_submission_deadline b with
  | Some x, Some y => (y <=? x)%Z
  | Some _, None => true
  | None, Some _ => false
  | None, None => true
  end.

(** Lines 310-318: the twenty rows shown.  Rows with equal deadlines keep
    their relative order here; no statement below depends on it. *)
Definition recent_tenders (filtered_df : DataFrame) : list DisplayRow :=
  firstn 20 (sort_by deadline_before (map display_row (df_rows filtered_df))).

(** Remove the thousands separators again. *)
Definition strip_commas (s : string) : string :=
  string_of_list_ascii
    (filter (fun c => negb (Ascii.eqb c ","%char)) (list_ascii_of_string s)).

(** Whether a code is a bucket and not NaN. *)
Definition is_coded (code : option nat) : bool :=
  match code with
  | Some _ => true
  | None => false
  end.

(** The order of the table of recent tenders, as a relation: a row may
    stand before a row with an earlier or equal deadline and before a row
    without one; a row without a deadline only before others without. *)
Definition not_earlier (a b : DisplayRow) : Prop :=
  match disp_submission_deadline a, disp_submission_deadline b with
  | Some x, Some y => (y <= x)%Z
  | None, Some _ => False
  | _, None => True
  end.


(** Whether a row has a value in a text column. *)
Definition has_value (col : TenderRecord -> option string) (r : TenderRecord) : bool :=
  match col r with
  | Some _ => true
  | None => false
  end.

(** Every character but the separator. *)
Definition not_comma (c : ascii) : bool := negb (Ascii.eqb c ","%char).

(** ** [db/extract_schema.py]: the indexes of [get_database_schema] *)

(** One row of the index query (lines 50-70). *)
Record IndexRow : Type := mkIndexRow {
  row_index_name : string;
  row_table_name : string;
  row_column_name : string;
  row_is_unique : bool;
  row_is_primary : bool
}.

(** The dictionary that line 76 appends for a row. *)
Record IndexEntry : Type := mkIndexEntry {
  index_name : string;
  column_name : string;
  is_unique : bool;
  is_primary : bool
}.

Definition index_entry (r : IndexRow) : IndexEntry :=
  {| index_name := row_index_name r;
     column_name := row_column_name r;
     is_unique := row_is_unique r;
     is_primary := row_is_primary r |}.

(** [schema["indexes"]]: a dict from table names to lists, in insertion order. *)
Definition IndexDict : Type := list (string * list IndexEntry).

(** [d[k]], [None] for a missing key. *)
Fixpoint dict_get (k : string) (d : IndexDict) : option (list IndexEntry) :=
  match d with
  | [] => None
  | (k', vs) :: rest => if String.eqb k' k then Some vs else dict_get k rest
  end.

(** Lines 74-76: [if k not in d: d[k] = []] and then [d[k].append(v)]. *)
Fixpoint dict_append (k : string) (v : IndexEntry) (d : IndexDict) : IndexDict :=
  match d with
  | [] => [(k, [v])]
  | (k', vs) :: rest =>
      if String.eqb k' k then (k', vs ++ [v]) :: rest
      else (k', vs) :: dict_append k v rest
  end.

(** Lines 73-82: the loop over the rows of the index query. *)
Definition group_indexes (indexes : list IndexRow) : IndexDict :=
  fold_left (fun d r => dict_append (row_table_name r) (index_entry r) d) indexes [].

(** Whether a row of the index query belongs to a table. *)
Definition of_table (t : string) (r : IndexRow) : bool := String.eqb (row_table_name r) t.

(* ================================================================== *)
(** * Part II: properties *)
(* ================================================================== *)

(** ** Comparisons *)

Lemma Qcltb_lt (x y : Qc) : Qcltb x y = true <-> x < y.
Proof.
  unfold Qcltb. destruct (Qclt_le_dec x y) as [H | H]; split; intro K; auto.
  - discriminate.
  - exfalso. exact (Qcle_not_lt _ _ H K).
Qed.

Lemma Qcleb_le (x y : Qc) : Qcleb x y = true <-> x <= y.
Proof.
  unfold Qcleb. destruct (Qclt_le_dec y x) as [H | H]; split; intro K; auto.
  - discriminate.
  - exfalso. exact (Qcle_not_lt _ _ K H).
Qed.

Lemma Qceqb_eq (x y : Qc) : Qceqb x y = true <-> x = y.
Proof.
  unfold Qceqb. destruct (Qc_eq_dec x y); split; intro K; auto; try discriminate.
Qed.

Lemma Qcltb_ge (x y : Qc) : Qcltb x y = false <-> y <= x.
Proof.
  unfold Qcltb. destruct (Qclt_le_dec x y) as [H | H]; split; intro K; auto.
  - discriminate.
  - exfalso. exact (Qcle_not_lt _ _ K H).
Qed.

Lemma Qcleb_gt (x y : Qc) : Qcleb x y = false <-> y < x.
Proof.
  unfold Qcleb. destruct (Qclt_le_dec y x) as [H | H]; split; intro K; auto.
  - discriminate.
  - exfalso. exact (Qcle_not_lt _ _ H K).
Qed.

Lemma Qceqb_refl (x : Qc) : Qceqb x x = true.
Proof. apply Qceqb_eq. reflexivity. Qed.

(** ** Boolean indexing *)

Lemma select_map_filter {A : Type} (p : A -> bool) (xs : list A) :
  select xs (map p xs) = filter p xs.
Proof.
  induction xs as [| x xs IH]; simpl; [reflexivity |].
  destruct (p x); rewrite IH; reflexivity.
Qed.

(** Selecting twice, the second mask computed on the rows that survived the
    first, is selecting once by the conjunction; [col] is any column aligned
    with the rows. *)
Lemma select_select {A B : Type} (p q : A -> bool) (rows : list A) (col : list B) :
  select (select col (map p rows)) (map q (filter p rows))
  = select col (map (fun r => p r && q r) rows).
Proof.
  revert col. induction rows as [| r rows IH]; intros col; simpl.
  - destruct col; reflexivity.
  - destruct col as [| c col]; simpl.
    + destruct (p r); simpl; [destruct (q r) |]; reflexivity.
    + destruct (p r); simpl.
      * destruct (q r); rewrite IH; reflexivity.
      * apply IH.
Qed.


Lemma filter_subseq {A : Type} (p : A -> bool) (l : list A) : subseq (filter p l) l.
Proof.
  induction l as [| x l IH]; simpl; [constructor |].
  destruct (p x); [apply subseq_keep | apply subseq_skip]; exact IH.
Qed.

Lemma subseq_refl {A : Type} (l : list A) : subseq l l.
Proof. induction l; [apply subseq_nil | apply subseq_keep; assumption]. Qed.

Lemma subseq_trans {A : Type} (l1 l2 l3 : list A) :
  subseq l1 l2 -> subseq l2 l3 -> subseq l1 l3.
Proof.
  intros H12 H23. revert l1 H12.
  induction H23 as [| x l2 l3 H IH | x l2 l3 H IH]; intros l1 H12.
  - exact H12.
  - apply subseq_skip. apply IH. exact H12.
  - inversion H12; subst.
    + apply subseq_skip. apply IH. assumption.
    + apply subseq_keep. apply IH. assumption.
Qed.

Lemma subseq_In {A : Type} (l1 l2 : list A) (x : A) :
  subseq l1 l2 -> In x l1 -> In x l2.
Proof.
  induction 1 as [| y l1 l2 H IH | y l1 l2 H IH]; simpl; intros K; auto.
  destruct K as [K | K]; auto.
Qed.

(** ** The filters as row predicates *)

Lemma filter_cost_rows (lo hi : Qc) (df : DataFrame) :
  df_rows (filter_cost lo hi df) = filter (cost_ok lo hi) (df_rows df).
Proof. unfold filter_cost, cost_mask. simpl. apply select_map_filter. Qed.


Lemma filter_choice_rows (col : TenderRecord -> option string) (selected : string)
    (df : DataFrame) :
  df_rows (if negb (String.eqb selected "All")
           then df_select df (eq_mask col selected df) else df)
  = filter (choice_ok col selected) (df_rows df).
Proof.
  unfold choice_ok. destruct (String.eqb selected "All"); simpl.
  - symmetry. apply forallb_filter_id. apply forallb_forall. reflexivity.
  - unfold eq_mask. apply select_map_filter.
Qed.

Lemma filter_sector_rows (s : string) (df : DataFrame) :
  df_rows (filter_sector s df) = filter (choice_ok procurement_sector_code s) (df_rows df).
Proof. apply filter_choice_rows. Qed.

Lemma filter_procedure_rows (p : string) (df : DataFrame) :
  df_rows (filter_procedure p df) = filter (choice_ok procedure_type_code p) (df_rows df).
Proof. apply filter_choice_rows. Qed.

Lemma apply_filters_rows (df : DataFrame) (lo hi : Qc) (s p : string) :
  df_rows (apply_filters df lo hi s p)
  = filter (fun r => cost_ok lo hi r
                     && choice_ok procurement_sector_code s r
                     && choice_ok procedure_type_code p r) (df_rows df).
Proof.
  unfold apply_filters.
  rewrite filter_procedure_rows, filter_sector_rows, filter_cost_rows.
  induction (df_rows df) as [| r rows IH]; simpl; [reflexivity |].
  destruct (cost_ok lo hi r); simpl; [| exact IH].
  destruct (choice_ok procurement_sector_code s r); simpl; [| exact IH].
  destruct (choice_ok procedure_type_code p r); simpl; rewrite IH; reflexivity.
Qed.

Lemma df_select_twice (p q : TenderRecord -> bool) (df : DataFrame) :
  df_select (df_select df (map p (df_rows df)))
            (map q (df_rows (df_select df (map p (df_rows df)))))
  = df_select df (map (fun r => p r && q r) (df_rows df)).
Proof.
  unfold df_select. simpl. f_equal.
  - rewrite <- (select_select p q (df_rows df) (df_rows df)).
    rewrite (select_map_filter p (df_rows df)). reflexivity.
  - rewrite (select_map_filter p (df_rows df)).
    destruct (df_cost_bucket df) as [col |]; simpl; [| reflexivity].
    f_equal. apply select_select.
Qed.

Lemma df_select_comm (p q : TenderRecord -> bool) (df : DataFrame) :
  df_select (df_select df (map p (df_rows df)))
            (map q (df_rows (df_select df (map p (df_rows df)))))
  = df_select (df_select df (map q (df_rows df)))
              (map p (df_rows (df_select df (map q (df_rows df))))).
Proof.
  rewrite !df_select_twice. f_equal. apply map_ext. intros r. apply andb_comm.
Qed.

(** ** Filters: composition, bounds and order *)

(** C7.  The three sidebar filters commute pairwise, on the whole frame, and
    their composition keeps exactly the rows that pass all three tests: the
    cost within the range, and for the sector and the procedure either the
    choice "All" or a field equal to the chosen value. *)
Theorem filters_commute_and_intersect (df : DataFrame) (lo hi : Qc) (s p : string) :
  filter_sector s (filter_cost lo hi df) = filter_cost lo hi (filter_sector s df)
  /\ filter_procedure p (filter_cost lo hi df) = filter_cost lo hi (filter_procedure p df)
  /\ filter_procedure p (filter_sector s df) = filter_sector s (filter_procedure p df)
  /\ forall r,
       In r (df_rows (apply_filters df lo hi s p)) <->
       In r (df_rows df)
       /\ (lo <= estimated_cost r /\ estimated_cost r <= hi)
       /\ (s = "All"%string \/ procurement_sector_code r = Some s)
       /\ (p = "All"%string \/ procedure_type_code r = Some p).
Proof.
  assert (choice : forall col sel r,
             choice_ok col sel r = true <-> sel = "All"%string \/ col r = Some sel).
  { intros col sel r. unfold choice_ok. rewrite orb_true_iff, String.eqb_eq.
    destruct (col r) as [v |].
    - rewrite String.eqb_eq. split; intros [H | H]; auto.
      + subst. auto.
      + injection H as ->. auto.
    - split; intros [H | H]; auto; discriminate. }
  repeat split.
  - unfold filter_sector, filter_cost, cost_mask, eq_mask.
    destruct (String.eqb s "All"); simpl; [reflexivity |].
    symmetry. apply df_select_comm.
  - unfold filter_procedure, filter_cost, cost_mask, eq_mask.
    destruct (String.eqb p "All"); simpl; [reflexivity |].
    symmetry. apply df_select_comm.
  - unfold filter_procedure, filter_sector, eq_mask.
    destruct (String.eqb p "All"), (String.eqb s "All"); simpl; try reflexivity.
    symmetry. apply df_select_comm.
  - rewrite apply_filters_rows in H. apply filter_In in H. tauto.
  - rewrite apply_filters_rows in H. apply filter_In in H.
    destruct H as [_ H]. rewrite !andb_true_iff in H.
    unfold cost_ok in H. rewrite andb_true_iff, !Qcleb_le in H. tauto.
  - rewrite apply_filters_rows in H. apply filter_In in H.
    destruct H as [_ H]. rewrite !andb_true_iff in H.
    unfold cost_ok in H. rewrite andb_true_iff, !Qcleb_le in H. tauto.
  - rewrite apply_filters_rows in H. apply filter_In in H.
    destruct H as [_ H]. rewrite !andb_true_iff in H.
    apply choice. tauto.
  - rewrite apply_filters_rows in H. apply filter_In in H.
    destruct H as [_ H]. rewrite !andb_true_iff in H.
    apply choice. tauto.
  - intros (Hin & [Hlo Hhi] & Hs & Hp).
    rewrite apply_filters_rows. apply filter_In. split; [exact Hin |].
    rewrite !andb_true_iff. unfold cost_ok. rewrite andb_true_iff, !Qcleb_le.
    repeat split; auto; apply choice; assumption.
Qed.

(** C8.  The cost-range filter keeps the rows whose cost lies between the
    two bounds, both included, each as often as it occurs and in its order;
    with the bounds crossed it returns a frame with no rows. *)
Theorem filter_cost_inclusive (df : DataFrame) (lo hi : Qc) :
  df_rows (filter_cost lo hi df)
  = filter (fun r => Qcleb lo (estimated_cost r) && Qcleb (estimated_cost r) hi)
           (df_rows df)
  /\ (forall r, In r (df_rows (filter_cost lo hi df)) <->
                In r (df_rows df) /\ lo <= estimated_cost r /\ estimated_cost r <= hi)
  /\ (hi < lo -> df_rows (filter_cost lo hi df) = []).
Proof.
  assert (E := filter_cost_rows lo hi df). unfold cost_ok in E.
  split; [exact E |]. split.
  - intros r. rewrite E, filter_In, andb_true_iff, !Qcleb_le. tauto.
  - intros Hcross. rewrite E. clear E.
    induction (df_rows df) as [| r rows IH]; simpl; [reflexivity |].
    destruct (Qcleb lo (estimated_cost r) && Qcleb (estimated_cost r) hi) eqn:K;
      [| exact IH].
    apply andb_true_iff in K. rewrite !Qcleb_le in K. destruct K as [K1 K2].
    exfalso. apply (Qcle_not_lt lo hi); [| exact Hcross].
    eapply Qcle_trans; eassumption.
Qed.

(** C9.  Whatever the widgets hold, the filtered rows are a subsequence of
    the rows of the input: rows of the input, unchanged, in their order. *)
Theorem apply_filters_subseq (df : DataFrame) (lo hi : Qc) (s p : string) :
  subseq (df_rows (apply_filters df lo hi s p)) (df_rows df)
  /\ forall r, In r (df_rows (apply_filters df lo hi s p)) -> In r (df_rows df).
Proof.
  assert (H : subseq (df_rows (apply_filters df lo hi s p)) (df_rows df))
    by (rewrite apply_filters_rows; apply filter_subseq).
  split; [exact H |]. intros r. apply subseq_In. exact H.
Qed.

(** The range (500, 50000) leaves the two middle rows of [decades_table]. *)
Lemma range_filter_leaves_two_rows :
  filter_cost (qz 500) (qz 50000) decades_table = two_row_table.
Proof. reflexivity. Qed.

(** ** The frame of [create_cost_buckets] *)

Lemma pd_cut_length (x bins : list Qc) (labels : list string) (codes : list (option nat)) :
  pd_cut x bins labels = Return codes -> codes = map (cut_code bins) x.
Proof.
  unfold pd_cut.
  destruct (negb (is_monotonic_increasing bins)); [discriminate |].
  destruct (has_duplicates Qceqb bins && negb (length bins =? 2)%nat); [discriminate |].
  destruct (has_duplicates String.eqb labels); [discriminate |].
  destruct (negb (length labels =? length bins - 1)%nat); [discriminate |].
  intros [= <-]. reflexivity.
Qed.

Section Frame.

Variable np_log10 : Qc -> Qc.
Variable np_power10 : Qc -> Qc.

(** What a successful call returns: the input frame with [cost_bucket]
    set to the codes that [pd.cut] gives the cost column over the
    returned edges. *)
Lemma create_cost_buckets_returns (df df' : DataFrame) (n : nat)
    (edges : list Qc) (labels : list string) :
  create_cost_buckets np_log10 np_power10 df n = Return (df', edges, labels) ->
  df' = df_set_cost_bucket df (map (cut_code edges) (cost_column df)).
Proof.
  unfold create_cost_buckets.
  destruct (series_min (cost_column df)) as [mn |]; [| discriminate].
  destruct (series_max (cost_column df)) as [mx |]; [| discriminate].
  destruct (Qcltb 0 mn).
  - destruct (pd_cut _ _ _) as [codes | e] eqn:Hcut; [| discriminate].
    intros [= <- <- <-]. apply pd_cut_length in Hcut. subst codes. reflexivity.
  - destruct (Qceqb mn 0 && (n =? 0)%nat); [| discriminate].
    intros [= <- <- <-]. f_equal. unfold cost_column. rewrite map_map.
    apply map_ext. intros r. unfold cut_code. simpl.
    destruct (Qceqb (estimated_cost r) 0); [reflexivity |].
    destruct (Qcltb 0 (estimated_cost r)); reflexivity.
Qed.

End Frame.

(** C10.  A successful [create_cost_buckets] returns the rows it was given,
    every one with all its fields, as many and in the same order, and
    differs from its input only in the column [cost_bucket], which holds
    one code per row. *)
Theorem create_cost_buckets_frame (np_log10 np_power10 : Qc -> Qc)
    (df df' : DataFrame) (n : nat) (edges : list Qc) (labels : list string) :
  create_cost_buckets np_log10 np_power10 df n = Return (df', edges, labels) ->
  df_rows df' = df_rows df
  /\ exists codes,
       df' = df_set_cost_bucket df codes
       /\ length codes = length (df_rows df).
Proof.
  intros H. apply create_cost_buckets_returns in H. subst df'.
  split; [reflexivity |].
  eexists. split; [reflexivity |].
  unfold cost_column. rewrite !length_map. reflexivity.
Qed.

Lemma create_cost_buckets_frame_witness :
  df_rows (df_set_cost_bucket decades_table [Some 0; Some 0; Some 1; Some 2]%nat)
  = df_rows decades_table
  /\ exists codes,
       df_set_cost_bucket decades_table [Some 0; Some 0; Some 1; Some 2]%nat
       = df_set_cost_bucket decades_table codes
       /\ length codes = length (df_rows decades_table).
Proof.
  apply (create_cost_buckets_frame log10_chord pow10_chord decades_table _ 3
           (map qz [100; 1000; 10000; 100000]%Z)
           ["€100 - €1K"; "€1K - €10K"; "€10K - €100K"]%string).
  vm_compute. reflexivity.
Defined.

(** ** Summary metrics on an empty result *)

(** C4.  When the filters leave no row, [main] still computes the four
    metrics before it tests for emptiness: it displays the mean and the
    median of the empty column, which are NaN, and only then the warning. *)
Theorem empty_result_metrics_precede_warning (np_log10 np_power10 : Qc -> Qc)
    (df : DataFrame) (lo hi : Qc) (s p : string) :
  df_rows (apply_filters df lo hi s p) = [] ->
  main np_log10 np_power10 df lo hi s p
  = [ Metric "Total Tenders" "0";
      Metric "Total Value" "€0";
      Metric "Average Cost" "€nan";
      Metric "Median Cost" "€nan";
      Markdown "---";
      Warning "No data available for the selected filters." ].
Proof.
  intros H. unfold main, bucket_step, metrics, df_len, cost_column.
  rewrite H. simpl. rewrite H. reflexivity.
Qed.

Lemma empty_result_metrics_witness :
  main log10_chord pow10_chord sector_table (qz 100) (qz 100) "B" "All"
  = [ Metric "Total Tenders" "0";
      Metric "Total Value" "€0";
      Metric "Average Cost" "€nan";
      Metric "Median Cost" "€nan";
      Markdown "---";
      Warning "No data available for the selected filters." ].
Proof.
  apply empty_result_metrics_precede_warning. vm_compute. reflexivity.
Defined.

(** ** Formatting of monetary values *)

Lemma thousand_lt_million : qz 1000 < qz 1000000.
Proof. reflexivity. Qed.

Lemma format_edge_units (v : Qc) :
  v < qz 1000 -> format_edge v = (euro ++ fixed0 v)%string.
Proof. intros H. unfold format_edge. apply Qcltb_lt in H. rewrite H. reflexivity. Qed.

Lemma format_edge_thousands (v : Qc) :
  qz 1000 <= v -> v < qz 1000000 ->
  format_edge v = (euro ++ fixed0 (v / qz 1000) ++ "K")%string.
Proof.
  intros H1 H2. unfold format_edge.
  apply Qcltb_ge in H1. apply Qcltb_lt in H2. rewrite H1, H2. reflexivity.
Qed.

Lemma format_edge_millions (v : Qc) :
  qz 1000000 <= v -> format_edge v = (euro ++ fixed1 (v / qz 1000000) ++ "M")%string.
Proof.
  intros H. unfold format_edge.
  assert (H' : qz 1000 <= v).
  { eapply Qcle_trans; [apply Qclt_le_weak, thousand_lt_million | exact H]. }
  apply Qcltb_ge in H, H'. rewrite H, H'. reflexivity.
Qed.

Lemma format_stat_units (v : Qc) :
  v < qz 1000 -> format_stat (Fin v) = (euro ++ fixed0 v)%string.
Proof.
  intros H. unfold format_stat, pf_geb.
  assert (H' : v < qz 1000000) by (eapply Qclt_trans; [exact H | apply thousand_lt_million]).
  apply Qcleb_gt in H, H'. rewrite H, H'. reflexivity.
Qed.

Lemma format_stat_thousands (v : Qc) :
  qz 1000 <= v -> v < qz 1000000 ->
  format_stat (Fin v) = (euro ++ fixed1 (v / qz 1000) ++ "K")%string.
Proof.
  intros H1 H2. unfold format_stat, pf_geb.
  apply Qcleb_le in H1. apply Qcleb_gt in H2. rewrite H1, H2. reflexivity.
Qed.

Lemma format_stat_millions (v : Qc) :
  qz 1000000 <= v ->
  format_stat (Fin v) = (euro ++ fixed1 (v / qz 1000000) ++ "M")%string.
Proof.
  intros H. unfold format_stat, pf_geb. apply Qcleb_le in H. rewrite H. reflexivity.
Qed.

Lemma format_total_below_billion (v : Qc) :
  v < qz 1000000000 -> format_total v = format_stat (Fin v).
Proof.
  intros H. unfold format_total, format_stat, pf_geb, pf_fixed1_div, pf_fixed0.
  apply Qcleb_gt in H. rewrite H. reflexivity.
Qed.

Lemma format_total_billions (v : Qc) :
  qz 1000000000 <= v ->
  format_total v = (euro ++ fixed1 (v / qz 1000000000) ++ "B")%string.
Proof. intros H. unfold format_total. apply Qcleb_le in H. rewrite H. reflexivity. Qed.

(** C6, as the code has it.  Bucket edges and statistics are formatted by
    separate chains with the same two thresholds.  Both render a value
    below 1000 as whole euros and a value from 1000000 on as millions with
    one decimal and an M; between the two the edge is shown in whole
    thousands and the statistic in thousands with one decimal, both with a
    K.  The chains agree outside the thousands.  The chain for the total
    is that of the other statistics below 1000000000 and shows billions
    with one decimal and a B from there on. *)
Theorem format_chains (v : Qc) :
  (v < qz 1000 ->
     format_edge v = (euro ++ fixed0 v)%string
     /\ format_stat (Fin v) = (euro ++ fixed0 v)%string)
  /\ (qz 1000 <= v -> v < qz 1000000 ->
        format_edge v = (euro ++ fixed0 (v / qz 1000) ++ "K")%string
        /\ format_stat (Fin v) = (euro ++ fixed1 (v / qz 1000) ++ "K")%string)
  /\ (qz 1000000 <= v ->
        format_edge v = (euro ++ fixed1 (v / qz 1000000) ++ "M")%string
        /\ format_stat (Fin v) = (euro ++ fixed1 (v / qz 1000000) ++ "M")%string)
  /\ (v < qz 1000 \/ qz 1000000 <= v -> format_edge v = format_stat (Fin v))
  /\ (v < qz 1000000000 -> format_total v = format_stat (Fin v))
  /\ (qz 1000000000 <= v ->
        format_total v = (euro ++ fixed1 (v / qz 1000000000) ++ "B")%string).
Proof.
  split; [| split; [| split; [| split; [| split]]]].
  - intros H. split; [apply format_edge_units | apply format_stat_units]; exact H.
  - intros H1 H2.
    split; [apply format_edge_thousands | apply format_stat_thousands]; assumption.
  - intros H. split; [apply format_edge_millions | apply format_stat_millions]; exact H.
  - intros [H | H].
    + rewrite format_edge_units, format_stat_units by exact H. reflexivity.
    + rewrite format_edge_millions, format_stat_millions by exact H. reflexivity.
  - apply format_total_below_billion.
  - apply format_total_billions.
Qed.

Lemma format_chains_witness :
  (format_edge (qz 250) = "€250"%string /\ format_stat (Fin (qz 250)) = "€250"%string)
  /\ (format_edge (qz 2500) = "€2K"%string /\ format_stat (Fin (qz 2500)) = "€2.5K"%string)
  /\ (format_edge (qz 2500000) = "€2.5M"%string
      /\ format_stat (Fin (qz 2500000)) = "€2.5M"%string)
  /\ format_edge (qz 250) = format_stat (Fin (qz 250))
  /\ format_total (qz 2500) = format_stat (Fin (qz 2500))
  /\ format_total (qz 2500000000) = "€2.5B"%string.
Proof.
  split; [| split; [| split; [| split; [| split]]]].
  - apply (proj1 (format_chains (qz 250))). reflexivity.
  - apply (proj1 (proj2 (format_chains (qz 2500)))); [discriminate | reflexivity].
  - apply (proj1 (proj2 (proj2 (format_chains (qz 2500000))))). discriminate.
  - apply (proj1 (proj2 (proj2 (proj2 (format_chains (qz 250)))))). left. reflexivity.
  - apply (proj1 (proj2 (proj2 (proj2 (proj2 (format_chains (qz 2500))))))). reflexivity.
  - apply (proj2 (proj2 (proj2 (proj2 (proj2 (format_chains (qz 2500000000))))))).
    discriminate.
Defined.

(** C6, as the claim has it, fails at 1500: the bucket edge reads 2K (the
    tie 1.5 rounds to the even 2) and the statistic reads 1.5K. *)
Lemma format_edge_differs_from_format_stat :
  format_edge (qz 1500) = "€2K"%string
  /\ format_stat (Fin (qz 1500)) = "€1.5K"%string
  /\ format_edge (qz 1500) <> format_stat (Fin (qz 1500)).
Proof.
  split; [reflexivity |]. split; [reflexivity |].
  intros H. vm_compute in H. discriminate H.
Qed.

Lemma filter_cost_inclusive_witness :
  df_rows (filter_cost (qz 500) (qz 100) decades_table) = [].
Proof.
  apply (proj2 (proj2 (filter_cost_inclusive decades_table (qz 500) (qz 100)))).
  reflexivity.
Defined.

(** ** A table with a single cost value *)

Lemma Qcmin_idem (c : Qc) : Qcmin c c = c.
Proof. unfold Qcmin. destruct (Qcltb c c); reflexivity. Qed.

Lemma Qcmax_idem (c : Qc) : Qcmax c c = c.
Proof. unfold Qcmax. destruct (Qcltb c c); reflexivity. Qed.

Lemma fold_left_constant (f : Qc -> Qc -> Qc) (c : Qc) (l : list Qc) :
  f c c = c -> (forall x, In x l -> x = c) -> fold_left f l c = c.
Proof.
  intros Hf. induction l as [| x l IH]; simpl; intros H; [reflexivity |].
  rewrite (H x (or_introl eq_refl)), Hf. apply IH. intros y Hy. apply H. right. exact Hy.
Qed.

Lemma constant_column_min_max (xs : list Qc) (c : Qc) :
  xs <> [] -> (forall x, In x xs -> x = c) ->
  series_min xs = Some c /\ series_max xs = Some c.
Proof.
  destruct xs as [| x rest]; [congruence |]. intros _ H.
  assert (Hx : x = c) by (apply H; left; reflexivity). subst x.
  unfold series_min, series_max.
  rewrite !fold_left_constant; auto using Qcmin_idem, Qcmax_idem;
    intros y Hy; apply H; right; exact Hy.
Qed.

Lemma map_constant {A B : Type} (f : A -> B) (b : B) (l : list A) :
  (forall a, f a = b) -> map f l = repeat b (length l).
Proof. intros H. induction l as [| a l IH]; simpl; [| rewrite H, IH]; reflexivity. Qed.

Lemma set_last_repeat (x : Qc) (k : nat) : set_last (repeat x k) x = repeat x k.
Proof.
  induction k as [| k IH]; [reflexivity |].
  destruct k as [| k]; [reflexivity |].
  change (repeat x (S (S k))) with (x :: repeat x (S k)).
  change (set_last (x :: repeat x (S k)) x) with (x :: set_last (repeat x (S k)) x).
  rewrite IH. reflexivity.
Qed.

(** With [start = stop] every sample of [np.linspace] is that value. *)
Lemma np_linspace_constant (x : Qc) (num : nat) : np_linspace x x num = repeat x num.
Proof.
  unfold np_linspace.
  assert (E : map (fun v => v + x)
                (if (0 <? num - 1)%nat
                 then if Qceqb ((x - x) / qn (num - 1)) 0
                      then map (fun i => i / qn (num - 1) * (x - x)) (arange num)
                      else map (fun i => i * ((x - x) / qn (num - 1))) (arange num)
                 else map (fun i => i * (x - x)) (arange num))
              = repeat x num).
  { assert (L : length (arange num) = num)
      by (unfold arange; rewrite length_map, length_seq; reflexivity).
    destruct (0 <? num - 1)%nat; [destruct (Qceqb _ 0) |];
      rewrite map_map; rewrite <- L at 2; apply map_constant; intros i;
      unfold Qcdiv; ring. }
  rewrite E. destruct (1 <? num)%nat; [apply set_last_repeat | reflexivity].
Qed.

Lemma is_monotonic_repeat (e : Qc) (k : nat) : is_monotonic_increasing (repeat e k) = true.
Proof.
  induction k as [| k IH]; [reflexivity |].
  destruct k as [| k]; [reflexivity |].
  change (is_monotonic_increasing (repeat e (S (S k))))
    with (Qcleb e e && is_monotonic_increasing (repeat e (S k))).
  rewrite IH, andb_true_r. apply Qcleb_le, Qcle_refl.
Qed.

Lemma has_duplicates_repeat (e : Qc) (k : nat) :
  (2 <= k)%nat -> has_duplicates Qceqb (repeat e k) = true.
Proof.
  intros H. destruct k as [| [| k]]; try lia. simpl. rewrite Qceqb_refl. reflexivity.
Qed.

(** C1.  On a non-empty table whose costs are all one positive value, and
    with two buckets or more, every edge is the same number and [pd.cut]
    rejects the repeated edge: [create_cost_buckets] raises [ValueError]
    and assigns no row to any bucket. *)
Theorem identical_costs_raise (np_log10 np_power10 : Qc -> Qc)
    (df : DataFrame) (c : Qc) (n : nat) :
  df_rows df <> [] ->
  (forall r, In r (df_rows df) -> estimated_cost r = c) ->
  0 < c ->
  (2 <= n)%nat ->
  create_cost_buckets np_log10 np_power10 df n
  = Raised (ValueError "Bin edges must be unique").
Proof.
  intros Hne Hall Hpos Hn.
  assert (Hcol : series_min (cost_column df) = Some c
                 /\ series_max (cost_column df) = Some c).
  { apply constant_column_min_max.
    - unfold cost_column. destruct (df_rows df); [congruence | discriminate].
    - unfold cost_column. intros x Hx. apply in_map_iff in Hx.
      destruct Hx as (r & <- & Hr). apply Hall. exact Hr. }
  destruct Hcol as [Hmin Hmax].
  unfold create_cost_buckets. rewrite Hmin, Hmax.
  apply Qcltb_lt in Hpos. rewrite Hpos.
  unfold make_bucket_edges. rewrite np_linspace_constant, map_repeat.
  unfold pd_cut.
  rewrite is_monotonic_repeat, has_duplicates_repeat by lia.
  rewrite repeat_length.
  replace (n + 1 =? 2)%nat with false by (symmetry; apply Nat.eqb_neq; lia).
  reflexivity.
Qed.

Lemma identical_costs_raise_witness :
  create_cost_buckets log10_chord pow10_chord flat_table 50
  = Raised (ValueError "Bin edges must be unique").
Proof.
  apply (identical_costs_raise log10_chord pow10_chord flat_table (qz 5000) 50).
  - discriminate.
  - intros r [<- | [<- | [<- | []]]]; reflexivity.
  - reflexivity.
  - lia.
Defined.

(** ** Bucket assignment *)

Lemma searchsorted_bound (bins : list Qc) (x : Qc) :
  (searchsorted_left bins x <= length bins)%nat.
Proof.
  induction bins as [| b bins IH]; simpl; [lia |].
  destruct (Qcltb b x); lia.
Qed.

(** Every edge before the insertion index is below the value. *)
Lemma searchsorted_below (bins : list Qc) (x : Qc) (j : nat) :
  (j < searchsorted_left bins x)%nat -> nth j bins 0 < x.
Proof.
  revert j. induction bins as [| b bins IH]; simpl; intros j H; [lia |].
  destruct (Qcltb b x) eqn:E; [| lia].
  destruct j as [| j]; [apply Qcltb_lt; exact E |].
  apply IH. lia.
Qed.

(** The edge at the insertion index, if there is one, is not below the value. *)
Lemma searchsorted_stop (bins : list Qc) (x : Qc) :
  (searchsorted_left bins x < length bins)%nat ->
  x <= nth (searchsorted_left bins x) bins 0.
Proof.
  induction bins as [| b bins IH]; simpl; intros H; [lia |].
  destruct (Qcltb b x) eqn:E.
  - apply IH. lia.
  - apply Qcltb_ge. exact E.
Qed.

Lemma monotonic_tail (b : Qc) (bins : list Qc) :
  is_monotonic_increasing (b :: bins) = true -> is_monotonic_increasing bins = true.
Proof.
  destruct bins as [| b' bins]; [reflexivity |].
  intros H. change (Qcleb b b' && is_monotonic_increasing (b' :: bins) = true) in H.
  apply andb_true_iff in H. tauto.
Qed.

Lemma monotonic_nth (bins : list Qc) (i j : nat) :
  is_monotonic_increasing bins = true ->
  (i <= j)%nat -> (j < length bins)%nat -> nth i bins 0 <= nth j bins 0.
Proof.
  revert i j. induction bins as [| b bins IH]; intros i j Hm Hij Hj; simpl in Hj; [lia |].
  destruct j as [| j].
  - replace i with 0%nat by lia. apply Qcle_refl.
  - destruct i as [| i].
    + destruct bins as [| b' bins]; [simpl in Hj; lia |].
      assert (Hm' := Hm).
      change (Qcleb b b' && is_monotonic_increasing (b' :: bins) = true) in Hm'.
      apply andb_true_iff in Hm'. destruct Hm' as [Hbb' Hm'].
      apply Qcleb_le in Hbb'.
      eapply Qcle_trans; [exact Hbb' |].
      apply (IH 0%nat j Hm'); simpl in *; lia.
    + simpl. apply IH; [eapply monotonic_tail; exact Hm | lia | lia].
Qed.

(** On non-decreasing edges the insertion index of a value in
    [(edge i, edge (i+1)]] is [i + 1]. *)
Lemma searchsorted_between (bins : list Qc) (x : Qc) (i : nat) :
  is_monotonic_increasing bins = true ->
  (i + 1 < length bins)%nat ->
  nth i bins 0 < x -> x <= nth (i + 1) bins 0 ->
  searchsorted_left bins x = (i + 1)%nat.
Proof.
  intros Hm Hi Hlo Hhi.
  pose proof (searchsorted_bound bins x) as Hb.
  destruct (Nat.lt_trichotomy (searchsorted_left bins x) (i + 1)) as [H | [H | H]];
    [| exact H |]; exfalso.
  - assert (K : x <= nth (searchsorted_left bins x) bins 0)
      by (apply searchsorted_stop; lia).
    assert (M : nth (searchsorted_left bins x) bins 0 <= nth i bins 0)
      by (apply monotonic_nth; [exact Hm | lia | lia]).
    apply (Qcle_not_lt x (nth i bins 0)); [| exact Hlo].
    eapply Qcle_trans; eassumption.
  - assert (K : nth (i + 1) bins 0 < x) by (apply searchsorted_below; lia).
    exact (Qcle_not_lt _ _ Hhi K).
Qed.

(** The code of a value over non-decreasing edges names the right-closed
    interval that holds it. *)
Lemma cut_code_in_bucket (bins : list Qc) (c : Qc) (i : nat) :
  is_monotonic_increasing bins = true ->
  cut_code bins c = Some i <-> in_bucket bins c i.
Proof.
  intros Hm. unfold cut_code, in_bucket.
  destruct bins as [| b0 rest];
    [simpl; split; [discriminate | intros [Hi _]; lia] |].
  cbv beta iota zeta.
  assert (H0 : nth 0 (b0 :: rest) 0 = b0) by reflexivity.
  assert (Hlen : (1 <= length (b0 :: rest))%nat) by (simpl; lia).
  remember (b0 :: rest) as bins eqn:Ebins. clear Ebins rest.
  pose proof (searchsorted_bound bins c) as Hb.
  destruct (Qceqb c b0) eqn:E0.
  - apply Qceqb_eq in E0. rewrite <- E0 in H0. clear E0 b0.
    destruct (1 =? length bins)%nat eqn:E1; cbn [orb Nat.eqb].
    + apply Nat.eqb_eq in E1. split; [discriminate | intros [Hi _]; lia].
    + apply Nat.eqb_neq in E1.
      split.
      * intros [= <-]. split; [lia |]. right. split; [reflexivity | symmetry; exact H0].
      * intros [Hi [[Hlo _] | [-> _]]]; [| reflexivity].
        exfalso. apply (Qcle_not_lt (nth 0 bins 0) (nth i bins 0)).
        -- apply monotonic_nth; [exact Hm | lia | lia].
        -- rewrite H0. exact Hlo.
  - assert (Hne : c <> b0) by (intros ->; rewrite Qceqb_refl in E0; discriminate).
    rewrite H0.
    destruct (searchsorted_left bins c =? length bins)%nat eqn:E1; cbn [orb].
    + apply Nat.eqb_eq in E1. split; [discriminate |].
      intros [Hi [[Hlo Hhi] | [_ Heq]]]; [| contradiction].
      rewrite (searchsorted_between bins c i Hm Hi Hlo Hhi) in E1. lia.
    + apply Nat.eqb_neq in E1.
      destruct (searchsorted_left bins c =? 0)%nat eqn:E2.
      * apply Nat.eqb_eq in E2. split; [discriminate |].
        intros [Hi [[Hlo Hhi] | [_ Heq]]]; [| contradiction].
        rewrite (searchsorted_between bins c i Hm Hi Hlo Hhi) in E2. lia.
      * apply Nat.eqb_neq in E2. split.
        -- intros [= <-]. split; [lia |]. left. split.
           ++ apply searchsorted_below. lia.
           ++ replace (searchsorted_left bins c - 1 + 1)%nat
                with (searchsorted_left bins c) by lia.
              apply searchsorted_stop. lia.
        -- intros [Hi [[Hlo Hhi] | [_ Heq]]]; [| contradiction].
           rewrite (searchsorted_between bins c i Hm Hi Hlo Hhi).
           f_equal. lia.
Qed.

Lemma existsb_Qceqb_false (a : Qc) (l : list Qc) (j : nat) :
  existsb (Qceqb a) l = false -> (j < length l)%nat -> a <> nth j l 0.
Proof.
  revert j. induction l as [| b l IH]; simpl; intros j H Hj; [lia |].
  apply orb_false_iff in H. destruct H as [Hab Hl].
  destruct j as [| j].
  - intros ->. rewrite Qceqb_refl in Hab. discriminate.
  - apply IH; [exact Hl | lia].
Qed.

(** Non-decreasing edges without a repeated value increase strictly. *)
Lemma strictly_increasing_step (bins : list Qc) (i : nat) :
  is_monotonic_increasing bins = true ->
  has_duplicates Qceqb bins = false ->
  (i + 1 < length bins)%nat ->
  nth i bins 0 < nth (i + 1) bins 0.
Proof.
  revert i. induction bins as [| b bins IH]; intros i Hm Hd Hi; simpl in Hi; [lia |].
  simpl in Hd. apply orb_false_iff in Hd. destruct Hd as [Hb Hd].
  destruct i as [| i].
  - destruct (Qcle_lt_or_eq (nth 0 (b :: bins) 0) (nth 1 (b :: bins) 0)) as [H | H].
    + apply monotonic_nth; [exact Hm | lia | simpl; lia].
    + exact H.
    + exfalso. simpl in H. apply (existsb_Qceqb_false b bins 0 Hb); [lia | exact H].
  - apply (IH i); [eapply monotonic_tail; exact Hm | exact Hd | lia].
Qed.

(** What [pd.cut] has checked of its edges when it returns. *)
Lemma pd_cut_checks (x bins : list Qc) (labels : list string) (codes : list (option nat)) :
  pd_cut x bins labels = Return codes ->
  is_monotonic_increasing bins = true
  /\ (has_duplicates Qceqb bins = false \/ length bins = 2%nat)
  /\ has_duplicates String.eqb labels = false
  /\ length labels = (length bins - 1)%nat.
Proof.
  unfold pd_cut.
  destruct (is_monotonic_increasing bins); [| discriminate]. simpl.
  destruct (has_duplicates Qceqb bins) eqn:Hd; simpl.
  - destruct (length bins =? 2)%nat eqn:E; simpl; [| discriminate].
    apply Nat.eqb_eq in E.
    destruct (has_duplicates String.eqb labels); [discriminate |].
    destruct (length labels =? length bins - 1)%nat eqn:L; simpl; [| discriminate].
    apply Nat.eqb_eq in L. auto.
  - destruct (has_duplicates String.eqb labels); [discriminate |].
    destruct (length labels =? length bins - 1)%nat eqn:L; simpl; [| discriminate].
    apply Nat.eqb_eq in L. auto.
Qed.

Section Assignment.

Variable np_log10 : Qc -> Qc.
Variable np_power10 : Qc -> Qc.

Lemma create_cost_buckets_checks (df df' : DataFrame) (n : nat)
    (edges : list Qc) (labels : list string) :
  create_cost_buckets np_log10 np_power10 df n = Return (df', edges, labels) ->
  is_monotonic_increasing edges = true
  /\ (has_duplicates Qceqb edges = false \/ length edges = 2%nat)
  /\ has_duplicates String.eqb labels = false
  /\ length labels = (length edges - 1)%nat.
Proof.
  unfold create_cost_buckets.
  destruct (series_min (cost_column df)) as [mn |]; [| discriminate].
  destruct (series_max (cost_column df)) as [mx |]; [| discriminate].
  destruct (Qcltb 0 mn).
  - destruct (pd_cut _ _ _) as [codes | e] eqn:Hcut; [| discriminate].
    intros [= <- <- <-]. eapply pd_cut_checks. exact Hcut.
  - destruct (Qceqb mn 0 && (n =? 0)%nat); [| discriminate].
    intros [= <- <- <-]. simpl. auto.
Qed.

End Assignment.

(** C3, as the code has it.  After a successful call the code of each row
    is that of its cost over the returned edges, and a cost [c] has code
    [i] exactly when [edge i < c <= edge (i+1)], or [i = 0] and [c] is the
    first edge: the intervals are closed on the right, the first one on
    both sides.  Hence a cost equal to edge [i], interior or last, goes to
    bucket [i - 1], a cost between the first and the last edge has one
    bucket (no two indices satisfy the condition, by the equivalence), and
    a cost outside them has none. *)
Theorem bucket_assignment_right_closed (np_log10 np_power10 : Qc -> Qc)
    (df df' : DataFrame) (n : nat) (edges : list Qc) (labels : list string) :
  create_cost_buckets np_log10 np_power10 df n = Return (df', edges, labels) ->
  df_cost_bucket df'
  = Some (map (fun r => cut_code edges (estimated_cost r)) (df_rows df))
  /\ (forall c i, cut_code edges c = Some i <-> in_bucket edges c i)
  /\ (forall i, (0 < i)%nat -> (i < length edges)%nat ->
        cut_code edges (nth i edges 0) = Some (i - 1)%nat)
  /\ (forall c, (2 <= length edges)%nat ->
        nth 0 edges 0 <= c -> c <= nth (length edges - 1) edges 0 ->
        exists i, cut_code edges c = Some i)
  /\ (forall c, c < nth 0 edges 0 \/ nth (length edges - 1) edges 0 < c ->
        cut_code edges c = None).
Proof.
  intros H.
  pose proof (create_cost_buckets_checks _ _ _ _ _ _ _ H) as (Hm & Hd & _ & _).
  apply create_cost_buckets_returns in H. subst df'.
  assert (Hiff : forall c i, cut_code edges c = Some i <-> in_bucket edges c i)
    by (intros c i; apply cut_code_in_bucket; exact Hm).
  split; [| split; [exact Hiff | split; [| split]]].
  - simpl. unfold cost_column. rewrite map_map. reflexivity.
  - intros i Hi Hlen. apply Hiff. split; [lia |].
    assert (Hstep : nth (i - 1) edges 0 <= nth i edges 0)
      by (apply monotonic_nth; [exact Hm | lia | lia]).
    destruct (Qcle_lt_or_eq _ _ Hstep) as [Hlt | Heq].
    + left. replace (i - 1 + 1)%nat with i by lia. split; [exact Hlt | apply Qcle_refl].
    + destruct Hd as [Hd | Hd].
      * exfalso. apply (Qcle_not_lt _ _ (Qcle_refl (nth i edges 0))).
        rewrite <- Heq at 1. replace i with (i - 1 + 1)%nat at 2 by lia.
        apply strictly_increasing_step; [exact Hm | exact Hd | lia].
      * right. assert (i = 1)%nat by lia. subst i. split; [reflexivity |].
        symmetry. exact Heq.
  - intros c Hlen Hlo Hhi.
    destruct (Qcle_lt_or_eq _ _ Hlo) as [Hlt | Heq].
    + pose proof (searchsorted_bound edges c) as Hb.
      assert (K0 : searchsorted_left edges c <> 0%nat).
      { intros K. destruct edges as [| b0 rest]; [simpl in Hlen; lia |].
        simpl in K, Hlt. apply Qcltb_lt in Hlt. rewrite Hlt in K. discriminate. }
      assert (K1 : searchsorted_left edges c <> length edges).
      { intros K.
        apply (Qcle_not_lt _ _ Hhi). apply searchsorted_below. lia. }
      exists (searchsorted_left edges c - 1)%nat. apply Hiff. split; [lia |]. left. split.
      * apply searchsorted_below. lia.
      * replace (searchsorted_left edges c - 1 + 1)%nat
          with (searchsorted_left edges c) by lia.
        apply searchsorted_stop. lia.
    + exists 0%nat. apply Hiff. split; [lia |]. right. split; [reflexivity |].
      symmetry. exact Heq.
  - intros c Hout.
    destruct (cut_code edges c) as [i |] eqn:E; [| reflexivity].
    exfalso. apply Hiff in E. destruct E as [Hi [[Hlo Hhi] | [-> Heq]]].
    + destruct Hout as [Hout | Hout].
      * apply (Qcle_not_lt (nth 0 edges 0) c).
        -- eapply Qcle_trans; [| apply Qclt_le_weak; exact Hlo].
           apply monotonic_nth; [exact Hm | lia | lia].
        -- exact Hout.
      * apply (Qcle_not_lt c (nth (length edges - 1) edges 0)); [| exact Hout].
        eapply Qcle_trans; [exact Hhi |].
        apply monotonic_nth; [exact Hm | lia | lia].
    + destruct Hout as [Hout | Hout].
      * rewrite Heq in Hout. exact (Qcle_not_lt _ _ (Qcle_refl _) Hout).
      * apply (Qcle_not_lt c (nth (length edges - 1) edges 0)); [| exact Hout].
        rewrite Heq. apply monotonic_nth; [exact Hm | lia | lia].
Qed.

Lemma decades_three_buckets :
  create_cost_buckets log10_chord pow10_chord decades_table 3
  = Return (decades_bucketed, decades_edges, decades_labels).
Proof. vm_compute. reflexivity. Qed.

Lemma bucket_assignment_right_closed_witness :
  df_cost_bucket decades_bucketed
  = Some (map (fun r => cut_code decades_edges (estimated_cost r)) (df_rows decades_table))
  /\ (forall c i, cut_code decades_edges c = Some i <-> in_bucket decades_edges c i)
  /\ (forall i, (0 < i)%nat -> (i < length decades_edges)%nat ->
        cut_code decades_edges (nth i decades_edges 0) = Some (i - 1)%nat)
  /\ (forall c, (2 <= length decades_edges)%nat ->
        nth 0 decades_edges 0 <= c ->
        c <= nth (length decades_edges - 1) decades_edges 0 ->
        exists i, cut_code decades_edges c = Some i)
  /\ (forall c, c < nth 0 decades_edges 0
                \/ nth (length decades_edges - 1) decades_edges 0 < c ->
        cut_code decades_edges c = None).
Proof.
  apply (bucket_assignment_right_closed log10_chord pow10_chord
           decades_table decades_bucketed 3 decades_edges decades_labels).
  vm_compute. reflexivity.
Defined.

(** C3, as the claim has it, fails on [decades_table] cut into three
    buckets.  The edges are 100, 1000, 10000 and 100000; the tender of
    cost 1000 satisfies [edge 1 <= 1000 < edge 2], which is the claim's
    condition for bucket 1, and is not the maximum, yet its code is 0. *)
Lemma left_closed_assignment_fails :
  create_cost_buckets log10_chord pow10_chord decades_table 3
  = Return (decades_bucketed, decades_edges, decades_labels)
  /\ nth_error (df_rows decades_table) 1 = Some (tender 1000 None None)
  /\ nth 1 decades_edges 0 <= qz 1000
  /\ qz 1000 < nth 2 decades_edges 0
  /\ df_cost_bucket decades_bucketed = Some [Some 0; Some 0; Some 1; Some 2]%nat
  /\ cut_code decades_edges (qz 1000) <> Some 1%nat.
Proof.
  split; [exact decades_three_buckets |].
  split; [reflexivity |].
  split; [discriminate |].
  split; [reflexivity |].
  split; [reflexivity |].
  vm_compute. discriminate.
Qed.

(** ** The category ranking *)

Lemma key_lt_trans (a b c : string) : key_lt a b -> key_lt b c -> key_lt a c.
Proof.
  unfold key_lt. intros H1 H2.
  apply String_as_OT.cmp_lt. apply String_as_OT.cmp_lt in H1, H2.
  eapply String_as_OT.lt_trans; eassumption.
Qed.

Lemma key_lt_irrefl (a : string) : ~ key_lt a a.
Proof.
  unfold key_lt. intros H.
  assert (E : String.compare a a = Eq) by (apply String_as_OT.cmp_eq; reflexivity).
  congruence.
Qed.

Lemma insert_key_In (k x : string) (keys : list string) :
  In x (insert_key k keys) <-> x = k \/ In x keys.
Proof.
  induction keys as [| h rest IH]; simpl.
  - intuition congruence.
  - destruct (String.compare k h) eqn:E; simpl.
    + apply String.compare_eq_iff in E. subst h. intuition congruence.
    + intuition congruence.
    + rewrite IH. intuition congruence.
Qed.

Lemma insert_key_sorted (k : string) (keys : list string) :
  StronglySorted key_lt keys -> StronglySorted key_lt (insert_key k keys).
Proof.
  induction keys as [| h rest IH]; simpl; intros Hs.
  - constructor; constructor.
  - inversion Hs as [| h' rest' Hrest Hall]; subst.
    destruct (String.compare k h) eqn:E.
    + exact Hs.
    + constructor; [exact Hs |].
      constructor; [exact E |].
      eapply Forall_impl; [| exact Hall].
      intros x Hx. eapply key_lt_trans; eassumption.
    + constructor; [apply IH; exact Hrest |].
      apply Forall_forall. intros x Hx. apply insert_key_In in Hx.
      destruct Hx as [-> | Hx].
      * unfold key_lt. rewrite String.compare_antisym, E. reflexivity.
      * rewrite Forall_forall in Hall. apply Hall. exact Hx.
Qed.

Lemma sorted_keys_NoDup (keys : list string) : StronglySorted key_lt keys -> NoDup keys.
Proof.
  induction 1 as [| h rest Hs IH Hall]; constructor; [| exact IH].
  intros Hin. rewrite Forall_forall in Hall. exact (key_lt_irrefl h (Hall h Hin)).
Qed.

Lemma present_names_In (rows : list TenderRecord) (k : string) :
  In k (present_names rows) <-> exists r, In r rows /\ primary_cpv_name r = Some k.
Proof.
  induction rows as [| r rows IH]; simpl.
  - split; [tauto | intros (r & [] & _)].
  - destruct (primary_cpv_name r) as [s |] eqn:E; simpl; rewrite IH; split.
    + intros [-> | (r' & Hr' & Hk)]; [exists r; auto | exists r'; auto].
    + intros (r' & [<- | Hr'] & Hk); [left; congruence | right; exists r'; auto].
    + intros (r' & Hr' & Hk). exists r'; auto.
    + intros (r' & [<- | Hr'] & Hk); [congruence | exists r'; auto].
Qed.

Lemma group_keys_sorted (df : DataFrame) : StronglySorted key_lt (group_keys df).
Proof.
  unfold group_keys. induction (present_names (df_rows df)) as [| k l IH]; simpl.
  - constructor.
  - apply insert_key_sorted. exact IH.
Qed.

Lemma group_keys_In (df : DataFrame) (k : string) :
  In k (group_keys df) <-> exists r, In r (df_rows df) /\ primary_cpv_name r = Some k.
Proof.
  rewrite <- present_names_In. unfold group_keys.
  induction (present_names (df_rows df)) as [| h l IH]; simpl; [tauto |].
  rewrite insert_key_In, IH. split; intros [H | H]; auto.
Qed.

Lemma groupby_names (df : DataFrame) : map cat_name (groupby_sum_count df) = group_keys df.
Proof. unfold groupby_sum_count. rewrite map_map. simpl. apply map_id. Qed.

Lemma insert_by_sum_perm (c : CategoryRow) (l : list CategoryRow) :
  Permutation (insert_by_sum c l) (c :: l).
Proof.
  induction l as [| h rest IH]; simpl; [reflexivity |].
  destruct (Qcltb (cat_sum c) (cat_sum h)); [| reflexivity].
  rewrite IH. apply perm_swap.
Qed.

Lemma insert_by_sum_sorted (c : CategoryRow) (l : list CategoryRow) :
  StronglySorted sum_ge l -> StronglySorted sum_ge (insert_by_sum c l).
Proof.
  induction l as [| h rest IH]; simpl; intros Hs.
  - constructor; constructor.
  - inversion Hs as [| h' rest' Hrest Hall]; subst.
    destruct (Qcltb (cat_sum c) (cat_sum h)) eqn:E.
    + constructor; [apply IH; exact Hrest |].
      apply Forall_forall. intros x Hx.
      apply (Permutation_in _ (insert_by_sum_perm c rest)) in Hx.
      destruct Hx as [<- | Hx].
      * unfold sum_ge. apply Qclt_le_weak, Qcltb_lt. exact E.
      * rewrite Forall_forall in Hall. apply Hall. exact Hx.
    + apply Qcltb_ge in E. constructor; [exact Hs |].
      constructor; [exact E |].
      eapply Forall_impl; [| exact Hall].
      unfold sum_ge. intros x Hx. eapply Qcle_trans; eassumption.
Qed.

Lemma sort_by_sum_desc_perm (l : list CategoryRow) : Permutation (sort_by_sum_desc l) l.
Proof.
  unfold sort_by_sum_desc. induction l as [| c l IH]; simpl; [reflexivity |].
  rewrite insert_by_sum_perm. constructor. exact IH.
Qed.

Lemma sort_by_sum_desc_sorted (l : list CategoryRow) :
  StronglySorted sum_ge (sort_by_sum_desc l).
Proof.
  unfold sort_by_sum_desc. induction l as [| c l IH]; simpl.
  - constructor.
  - apply insert_by_sum_sorted. exact IH.
Qed.

Lemma sorted_app_split {A : Type} (R : A -> A -> Prop) (l1 l2 : list A) :
  StronglySorted R (l1 ++ l2) ->
  StronglySorted R l1 /\ forall a b, In a l1 -> In b l2 -> R a b.
Proof.
  induction l1 as [| x l1 IH]; simpl; intros Hs.
  - split; [constructor | intros a b []].
  - inversion Hs as [| x' l' Hrest Hall]; subst.
    destruct (IH Hrest) as [Hs1 Hcross].
    rewrite Forall_forall in Hall. split.
    + constructor; [exact Hs1 |].
      apply Forall_forall. intros y Hy. apply Hall. apply in_or_app. left. exact Hy.
    + intros a b [<- | Ha] Hb.
      * apply Hall. apply in_or_app. right. exact Hb.
      * apply Hcross; assumption.
Qed.

(** Each row with a category is counted in the group of its name and in no
    other; a row without one is counted nowhere. *)
Lemma one_key_matches (s : string) (keys : list string) :
  NoDup keys -> In s keys ->
  list_sum (map (fun k => if String.eqb s k then 1 else 0)%nat keys) = 1%nat.
Proof.
  induction 1 as [| k keys Hnotin Hnd IH]; simpl; intros Hin; [contradiction |].
  destruct Hin as [-> | Hin].
  - rewrite String.eqb_refl.
    replace (list_sum _) with 0%nat; [reflexivity |].
    clear IH Hnd. induction keys as [| k keys IHk]; simpl; [reflexivity |].
    destruct (String.eqb s k) eqn:E.
    + apply String.eqb_eq in E. subst k. exfalso. apply Hnotin. left. reflexivity.
    + apply IHk. intros H. apply Hnotin. right. exact H.
  - destruct (String.eqb s k) eqn:E.
    + apply String.eqb_eq in E. subst k. contradiction.
    + apply IH. exact Hin.
Qed.

Lemma group_sizes_sum (keys : list string) (rows : list TenderRecord) :
  NoDup keys ->
  (forall r s, In r rows -> primary_cpv_name r = Some s -> In s keys) ->
  list_sum (map (fun k => length (filter (has_category k) rows)) keys)
  = length (filter has_name rows).
Proof.
  intros Hnd. induction rows as [| r rows IH]; intros Hall.
  - simpl. clear. induction keys; simpl; [reflexivity | assumption].
  - assert (IH' : list_sum (map (fun k => length (filter (has_category k) rows)) keys)
                  = length (filter has_name rows)).
    { apply IH. intros r' s Hr'. apply Hall. right. exact Hr'. }
    assert (step : list_sum (map (fun k => length (filter (has_category k) (r :: rows))) keys)
                   = (list_sum (map (fun k => if has_category k r then 1 else 0) keys)
                      + list_sum (map (fun k => length (filter (has_category k) rows)) keys))%nat).
    { clear. induction keys as [| k keys IHk]; simpl; [reflexivity |].
      simpl in IHk. rewrite IHk. destruct (has_category k r); simpl; lia. }
    rewrite step, IH'. simpl. unfold has_name at 2, has_category.
    destruct (primary_cpv_name r) as [s |] eqn:E.
    + rewrite (one_key_matches s keys Hnd); [reflexivity |].
      apply (Hall r s); [left; reflexivity | exact E].
    + replace (list_sum _) with 0%nat; [reflexivity |].
      clear. induction keys; simpl; auto.
Qed.

(** C5, as the code has it.  [groupby] makes one group for each distinct
    name that is present, with the sum and the count of the costs of the
    rows that carry it; the counts add up to the number of rows with a
    name, so a row without one is in no group.  The ranking lists the
    groups by descending sum and keeps the first ten: it has ten rows or
    all the groups if they are fewer, and no group left out has a larger
    sum than a group kept. *)
Theorem category_ranking (df : DataFrame) :
  NoDup (map cat_name (groupby_sum_count df))
  /\ (forall k, In k (map cat_name (groupby_sum_count df)) <->
                exists r, In r (df_rows df) /\ primary_cpv_name r = Some k)
  /\ (forall g, In g (groupby_sum_count df) ->
        cat_sum g
        = series_sum (map estimated_cost (filter (has_category (cat_name g)) (df_rows df)))
        /\ cat_count g = length (filter (has_category (cat_name g)) (df_rows df)))
  /\ list_sum (map cat_count (groupby_sum_count df)) = length (filter has_name (df_rows df))
  /\ StronglySorted sum_ge (category_value df)
  /\ length (category_value df) = Nat.min 10 (length (groupby_sum_count df))
  /\ exists rest,
       Permutation (category_value df ++ rest) (groupby_sum_count df)
       /\ forall g h, In g (category_value df) -> In h rest -> cat_sum h <= cat_sum g.
Proof.
  pose proof (sort_by_sum_desc_sorted (groupby_sum_count df)) as Hsorted.
  pose proof (sort_by_sum_desc_perm (groupby_sum_count df)) as Hperm.
  rewrite <- (firstn_skipn 10 (sort_by_sum_desc (groupby_sum_count df))) in Hsorted, Hperm.
  apply sorted_app_split in Hsorted. destruct Hsorted as [Htop Hcross].
  split; [| split; [| split; [| split; [| split; [| split]]]]].
  - rewrite groupby_names. apply sorted_keys_NoDup, group_keys_sorted.
  - intros k. rewrite groupby_names. apply group_keys_In.
  - intros g Hg. unfold groupby_sum_count in Hg. apply in_map_iff in Hg.
    destruct Hg as (k & <- & _). simpl. split; reflexivity.
  - unfold groupby_sum_count. rewrite map_map. simpl.
    apply group_sizes_sum.
    + apply sorted_keys_NoDup, group_keys_sorted.
    + intros r s Hr Hs. apply group_keys_In. exists r. auto.
  - exact Htop.
  - unfold category_value. rewrite length_firstn.
    rewrite (Permutation_length (sort_by_sum_desc_perm (groupby_sum_count df))).
    reflexivity.
  - exists (skipn 10 (sort_by_sum_desc (groupby_sum_count df))).
    split; [exact Hperm |]. intros g h Hg Hh. apply (Hcross g h Hg Hh).
Qed.

(** C5, as the claim has it, fails on [sector_table]: the tender of cost
    200 has no category, it makes no group of its own, and neither the
    groups nor the ranking account for it. *)
Lemma null_category_is_dropped :
  In (tender 200 (Some "B"%string) None) (df_rows sector_table)
  /\ primary_cpv_name (tender 200 (Some "B"%string) None) = None
  /\ groupby_sum_count sector_table = [mkCategory "Roads" (qz 100) 1]
  /\ category_value sector_table = [mkCategory "Roads" (qz 100) 1].
Proof.
  split; [right; left; reflexivity |].
  split; [reflexivity |].
  split; vm_compute; reflexivity.
Qed.

(** ** Rounding and the labels of neighbouring edges *)

Lemma Qcminus_le_compat_r (x y z : Qc) : x <= y -> x - z <= y - z.
Proof. intros H. unfold Qcminus. apply Qcplus_le_compat; [exact H | apply Qcle_refl]. Qed.

Lemma round_half_even_bounds (q : Qc) :
  (Qfloor q <= round_half_even q <= Qfloor q + 1)%Z.
Proof.
  unfold round_half_even.
  destruct (Qcltb _ _); [lia |].
  destruct (Qcltb _ _); [lia |].
  destruct (Z.even _); lia.
Qed.

(** Rounding half to even is monotone. *)
Lemma round_half_even_monotone (x y : Qc) :
  x <= y -> (round_half_even x <= round_half_even y)%Z.
Proof.
  intros Hxy.
  assert (Hf : (Qfloor x <= Qfloor y)%Z) by (apply Qfloor_resp_le; exact Hxy).
  destruct (Z.eq_dec (Qfloor x) (Qfloor y)) as [E | N].
  - assert (Hr : x - qz (Qfloor x) <= y - qz (Qfloor y))
      by (rewrite E; apply Qcminus_le_compat_r; exact Hxy).
    unfold round_half_even. rewrite <- E.
    rewrite <- E in Hr.
    set (half := qz 1 / qz 2) in *.
    set (rx := x - qz (Qfloor x)) in *.
    set (ry := y - qz (Qfloor x)) in *.
    destruct (Qcltb rx half) eqn:X1.
    + destruct (Qcltb ry half); [lia |].
      destruct (Qcltb half ry); [lia |]. destruct (Z.even _); lia.
    + apply Qcltb_ge in X1.
      assert (Y1 : Qcltb ry half = false)
        by (apply Qcltb_ge; eapply Qcle_trans; eassumption).
      rewrite Y1.
      destruct (Qcltb half rx) eqn:X2.
      * apply Qcltb_lt in X2.
        assert (Y2 : Qcltb half ry = true)
          by (apply Qcltb_lt; eapply Qclt_le_trans; eassumption).
        rewrite Y2. lia.
      * destruct (Qcltb half ry); [destruct (Z.even _); lia | lia].
  - pose proof (round_half_even_bounds x). pose proof (round_half_even_bounds y). lia.
Qed.

Lemma div_thousand_monotone (x y : Qc) : x <= y -> x / qz 1000 <= y / qz 1000.
Proof.
  intros H. unfold Qcdiv. apply Qcmult_le_compat_r; [exact H | discriminate].
Qed.

Lemma round_thousands_positive (e : Qc) :
  qz 1000 <= e -> (1 <= round_half_even (e / qz 1000))%Z.
Proof.
  intros H. apply div_thousand_monotone in H.
  apply round_half_even_monotone in H.
  replace (round_half_even (qz 1000 / qz 1000)) with 1%Z in H by (vm_compute; reflexivity).
  exact H.
Qed.

Lemma edge_class_nonneg (e : Qc) : (0 <= edge_class e)%Z.
Proof.
  unfold edge_class. destruct (Qcltb e (qz 1000)) eqn:E; [lia |].
  apply Qcltb_ge in E. pose proof (round_thousands_positive e E). lia.
Qed.

Lemma edge_class_monotone (x y : Qc) : x <= y -> (edge_class x <= edge_class y)%Z.
Proof.
  intros H. unfold edge_class.
  destruct (Qcltb x (qz 1000)) eqn:X; destruct (Qcltb y (qz 1000)) eqn:Y.
  - lia.
  - apply Qcltb_ge in Y. pose proof (round_thousands_positive y Y). lia.
  - exfalso. apply Qcltb_ge in X. apply Qcltb_lt in Y.
    apply (Qcle_not_lt x y H). eapply Qclt_le_trans; eassumption.
  - apply round_half_even_monotone, div_thousand_monotone. exact H.
Qed.

Lemma edge_class_upper (e : Qc) : e < qz 10500 -> (edge_class e <= 10)%Z.
Proof.
  intros H. unfold edge_class. destruct (Qcltb e (qz 1000)); [lia |].
  apply Qclt_le_weak, div_thousand_monotone, round_half_even_monotone in H.
  replace (round_half_even (qz 10500 / qz 1000)) with 10%Z in H by (vm_compute; reflexivity).
  exact H.
Qed.

Lemma Qcabs_pos (q : Qc) : 0 <= q -> Qcabs q = q.
Proof. intros H. unfold Qcabs. apply Qcltb_ge in H. rewrite H. reflexivity. Qed.

Lemma sign_str_pos (q : Qc) : 0 <= q -> sign_str q = ""%string.
Proof. intros H. unfold sign_str. apply Qcltb_ge in H. rewrite H. reflexivity. Qed.

Lemma fixed0_pos (q : Qc) : 0 <= q -> fixed0 q = digits (round_half_even q).
Proof. intros H. unfold fixed0. rewrite sign_str_pos, Qcabs_pos by exact H. reflexivity. Qed.

(** Just below 1000 an edge reads 1000 euros. *)
Lemma round_just_below_thousand (e : Qc) :
  qz 1999 / qz 2 <= e -> e < qz 1000 -> round_half_even e = 1000%Z.
Proof.
  intros Hlo Hhi.
  apply round_half_even_monotone in Hlo.
  apply Qclt_le_weak, round_half_even_monotone in Hhi.
  replace (round_half_even (qz 1999 / qz 2)) with 1000%Z in Hlo by (vm_compute; reflexivity).
  replace (round_half_even (qz 1000)) with 1000%Z in Hhi by (vm_compute; reflexivity).
  lia.
Qed.

(** Between 999.5 and a million, what an edge shows depends on its class only. *)
Lemma format_edge_by_class (x y : Qc) :
  qz 1999 / qz 2 <= x -> x < qz 1000000 ->
  qz 1999 / qz 2 <= y -> y < qz 1000000 ->
  edge_class x = edge_class y -> format_edge x = format_edge y.
Proof.
  intros Hx1 Hx2 Hy1 Hy2. unfold edge_class, format_edge.
  assert (P : forall e, qz 1999 / qz 2 <= e -> 0 <= e)
    by (intros e He; eapply Qcle_trans; [| exact He]; discriminate).
  assert (T : forall e, qz 1000 <= e -> 0 <= e / qz 1000).
  { intros e He. apply div_thousand_monotone in He.
    eapply Qcle_trans; [| exact He]. discriminate. }
  destruct (Qcltb x (qz 1000)) eqn:X; destruct (Qcltb y (qz 1000)) eqn:Y.
  - intros _. apply Qcltb_lt in X, Y.
    rewrite !fixed0_pos by (apply P; assumption).
    rewrite !round_just_below_thousand by assumption. reflexivity.
  - apply Qcltb_ge in Y. pose proof (round_thousands_positive y Y). lia.
  - apply Qcltb_ge in X. pose proof (round_thousands_positive x X). lia.
  - intros E. apply Qcltb_ge in X, Y. apply Qcltb_lt in Hx2, Hy2. rewrite Hx2, Hy2.
    rewrite !fixed0_pos by (apply T; assumption). rewrite E. reflexivity.
Qed.

(** ** A chain of classes and its pairs of neighbours *)

(** Along a non-decreasing chain that starts at [h] and stays at or below
    [bound], pairwise distinct pairs of neighbours are at most
    [2 * (bound - h) + 1]: between two equal pairs the chain must rise.
    One fewer if the chain does not begin with a pair of equal values. *)
Lemma chain_pairs_bound (bound h : Z) (cs : list Z) :
  Forall (fun p => (fst p <= snd p)%Z) (adjacent (h :: cs)) ->
  Forall (fun c => (c <= bound)%Z) (h :: cs) ->
  NoDup (adjacent (h :: cs)) ->
  (Z.of_nat (length (adjacent (h :: cs))) <= 2 * (bound - h) + 1)%Z
  /\ (~ In (h, h) (adjacent (h :: cs)) ->
      (Z.of_nat (length (adjacent (h :: cs))) <= 2 * (bound - h))%Z).
Proof.
  revert h. induction cs as [| y cs IH]; intros h Hup Hb Hnd.
  - inversion Hb as [| c cs' Hh Hb']; subst. cbv beta in Hh.
    change (adjacent [h]) with (@nil (Z * Z)). cbn [length In].
    split; [lia | intros _; lia].
  - change (adjacent (h :: y :: cs)) with ((h, y) :: adjacent (y :: cs)) in *.
    inversion Hup as [| p ps Hhy Hup']; subst. simpl in Hhy.
    inversion Hb as [| c cs' Hh Hb']; subst. cbv beta in Hh.
    inversion Hnd as [| p ps Hnotin Hnd']; subst.
    destruct (IH y Hup' Hb' Hnd') as [IH1 IH2].
    cbn [length]. rewrite Nat2Z.inj_succ.
    destruct (Z.eq_dec h y) as [-> | Hneq].
    + specialize (IH2 Hnotin). split; [lia |].
      intros Hno. exfalso. apply Hno. left. reflexivity.
    + split; [lia | intros _; lia].
Qed.

Lemma adjacent_map {A B : Type} (f : A -> B) (l : list A) :
  adjacent (map f l) = map (fun p => (f (fst p), f (snd p))) (adjacent l).
Proof.
  unfold adjacent. destruct l as [| a l]; [reflexivity |]. simpl tl.
  revert a. induction l as [| b l IH]; intros a; [reflexivity |].
  simpl. f_equal. apply IH.
Qed.

Lemma adjacent_length {A : Type} (l : list A) : length (adjacent l) = (length l - 1)%nat.
Proof.
  unfold adjacent. rewrite length_combine. destruct l; cbn [tl length]; lia.
Qed.

Lemma adjacent_In {A : Type} (l : list A) (p : A * A) :
  In p (adjacent l) -> In (fst p) l /\ In (snd p) l.
Proof.
  unfold adjacent. destruct p as [a b]. intros H. split.
  - eapply in_combine_l. exact H.
  - apply in_combine_r in H. destruct l; [contradiction | right; exact H].
Qed.

Lemma adjacent_monotonic (bins : list Qc) :
  is_monotonic_increasing bins = true ->
  Forall (fun p => fst p <= snd p) (adjacent bins).
Proof.
  induction bins as [| a bins IH]; intros Hm; [constructor |].
  destruct bins as [| b bins]; [constructor |].
  change (adjacent (a :: b :: bins)) with ((a, b) :: adjacent (b :: bins)).
  change (Qcleb a b && is_monotonic_increasing (b :: bins) = true) in Hm.
  apply andb_true_iff in Hm. destruct Hm as [Hab Hm].
  constructor; [apply Qcleb_le; exact Hab | apply IH; exact Hm].
Qed.

(** The loop of lines 91-109 labels the pairs of neighbouring edges. *)
Lemma make_bucket_labels_adjacent (edges : list Qc) :
  make_bucket_labels edges = map label_of_edges (adjacent edges).
Proof.
  unfold make_bucket_labels, label_of_edges.
  induction edges as [| a edges IH]; [reflexivity |].
  destruct edges as [| b edges]; [reflexivity |].
  change (adjacent (a :: b :: edges)) with ((a, b) :: adjacent (b :: edges)).
  replace (length (a :: b :: edges) - 1)%nat with (S (length (b :: edges) - 1))
    by (simpl; lia).
  rewrite <- cons_seq, <- seq_shift, !map_cons, map_map.
  f_equal. rewrite <- IH.
  apply map_ext. intros i. reflexivity.
Qed.

Lemma has_duplicates_NoDup {A : Type} (eqb : A -> A -> bool) (l : list A) :
  (forall x y, eqb x y = true <-> x = y) ->
  has_duplicates eqb l = false -> NoDup l.
Proof.
  intros Heqb. induction l as [| x l IH]; simpl; intros H; [constructor |].
  apply orb_false_iff in H. destruct H as [Hx Hl].
  constructor; [| apply IH; exact Hl].
  intros Hin.
  assert (K : existsb (eqb x) l = true).
  { apply existsb_exists. exists x. split; [exact Hin | apply Heqb; reflexivity]. }
  congruence.
Qed.

(** If [f] is determined by [g] on the entries of a list and the images by
    [f] are pairwise distinct, then so are the images by [g]. *)
Lemma NoDup_map_factor {A B C : Type} (f : A -> B) (g : A -> C) (l : list A) :
  (forall x y, In x l -> In y l -> g x = g y -> f x = f y) ->
  NoDup (map f l) -> NoDup (map g l).
Proof.
  induction l as [| a l IH]; simpl; intros Hfg Hnd; [constructor |].
  inversion Hnd as [| b bs Hnotin Hnd']; subst.
  constructor.
  - intros Hin. apply in_map_iff in Hin. destruct Hin as (y & Hy & Hyl).
    apply Hnotin. apply in_map_iff. exists y. split; [| exact Hyl].
    symmetry. apply Hfg; auto.
  - apply IH; [| exact Hnd'].
    intros x y Hx Hy. apply Hfg; auto.
Qed.

(** More than 22 non-decreasing edges between 999.5 and 10500 cannot all
    carry different labels: [pd.cut] does not return on them. *)
Lemma narrow_edges_rejected (x edges : list Qc) (codes : list (option nat)) :
  (23 <= length edges)%nat ->
  qz 1999 / qz 2 <= nth 0 edges 0 ->
  nth (length edges - 1) edges 0 < qz 10500 ->
  pd_cut x edges (make_bucket_labels edges) <> Return codes.
Proof.
  intros Hlen Hfirst Hlast Hcut.
  apply pd_cut_checks in Hcut. destruct Hcut as (Hm & _ & Hlab & _).
  assert (Hrange : forall e, In e edges -> qz 1999 / qz 2 <= e /\ e < qz 10500).
  { intros e He. apply (In_nth _ _ 0) in He. destruct He as (i & Hi & <-). split.
    - eapply Qcle_trans; [exact Hfirst |].
      apply monotonic_nth; [exact Hm | lia | exact Hi].
    - eapply Qcle_lt_trans; [| exact Hlast].
      apply monotonic_nth; [exact Hm | lia | lia]. }
  apply (has_duplicates_NoDup String.eqb) in Hlab; [| apply String.eqb_eq].
  rewrite make_bucket_labels_adjacent in Hlab.
  apply (NoDup_map_factor label_of_edges
           (fun p => (edge_class (fst p), edge_class (snd p)))) in Hlab.
  - rewrite <- adjacent_map in Hlab.
    destruct edges as [| e0 rest]; [simpl in Hlen; lia |].
    destruct (chain_pairs_bound 10 (edge_class e0) (map edge_class rest)) as [Hbound _].
    + change (edge_class e0 :: map edge_class rest) with (map edge_class (e0 :: rest)).
      rewrite adjacent_map. apply Forall_map.
      eapply Forall_impl; [| apply adjacent_monotonic; exact Hm].
      intros p Hp. simpl. apply edge_class_monotone. exact Hp.
    + change (edge_class e0 :: map edge_class rest) with (map edge_class (e0 :: rest)).
      apply Forall_map. apply Forall_forall. intros e He.
      apply edge_class_upper. apply Hrange. exact He.
    + exact Hlab.
    + change (edge_class e0 :: map edge_class rest) with (map edge_class (e0 :: rest)) in Hbound.
      rewrite adjacent_length, length_map in Hbound.
      pose proof (edge_class_nonneg e0). lia.
  - intros p q Hp Hq E. injection E as E1 E2.
    apply adjacent_In in Hp, Hq.
    destruct Hp as [Hp1 Hp2]. destruct Hq as [Hq1 Hq2].
    apply Hrange in Hp1, Hp2, Hq1, Hq2.
    assert (M : forall e, e < qz 10500 -> e < qz 1000000)
      by (intros e He; eapply Qclt_trans; [exact He | reflexivity]).
    unfold label_of_edges.
    rewrite (format_edge_by_class (fst p) (fst q)), (format_edge_by_class (snd p) (snd q));
      try tauto; apply M; tauto.
Qed.

(** ** The ends of [np.linspace] *)

Lemma set_last_length (y : list Qc) (v : Qc) : length (set_last y v) = length y.
Proof.
  induction y as [| a y IH]; [reflexivity |].
  destruct y as [| b y]; [reflexivity |].
  change (set_last (a :: b :: y) v) with (a :: set_last (b :: y) v).
  cbn [length] in *. rewrite IH. reflexivity.
Qed.

Lemma set_last_first (y : list Qc) (v : Qc) :
  (2 <= length y)%nat -> nth 0 (set_last y v) 0 = nth 0 y 0.
Proof. destruct y as [| a [| b y]]; simpl; intros H; try lia. reflexivity. Qed.

Lemma set_last_last (y : list Qc) (v : Qc) :
  (1 <= length y)%nat -> nth (length y - 1) (set_last y v) 0 = v.
Proof.
  induction y as [| a y IH]; intros H; [simpl in H; lia |].
  destruct y as [| b y]; [reflexivity |].
  change (set_last (a :: b :: y) v) with (a :: set_last (b :: y) v).
  replace (length (a :: b :: y) - 1)%nat with (S (length (b :: y) - 1)) by (simpl; lia).
  cbn [nth]. apply IH. simpl. lia.
Qed.

Section LinspaceEnds.

Variables start stop : Qc.
Variable num : nat.
Hypothesis two_samples : (2 <= num)%nat.

Lemma np_linspace_shape :
  exists g : Qc -> Qc,
    g (qn 0) = start
    /\ np_linspace start stop num = set_last (map g (arange num)) stop.
Proof.
  unfold np_linspace.
  replace (1 <? num)%nat with true by (symmetry; apply Nat.ltb_lt; lia).
  destruct (0 <? num - 1)%nat; [destruct (Qceqb _ 0) |]; rewrite map_map;
    eexists; (split; [| reflexivity]); cbv beta;
    change (qn 0) with (Q2Qc 0); unfold Qcdiv; ring.
Qed.

Lemma np_linspace_length : length (np_linspace start stop num) = num.
Proof.
  destruct np_linspace_shape as (g & _ & ->).
  rewrite set_last_length, length_map. unfold arange.
  rewrite length_map, length_seq. reflexivity.
Qed.

Lemma np_linspace_first : nth 0 (np_linspace start stop num) 0 = start.
Proof.
  destruct np_linspace_shape as (g & Hg & ->).
  assert (L : length (map g (arange num)) = num)
    by (unfold arange; rewrite !length_map, length_seq; reflexivity).
  rewrite set_last_first by lia.
  unfold arange. destruct num as [| k]; [lia |]. simpl. exact Hg.
Qed.

Lemma np_linspace_last : nth (num - 1) (np_linspace start stop num) 0 = stop.
Proof.
  destruct np_linspace_shape as (g & _ & ->).
  assert (L : length (map g (arange num)) = num)
    by (unfold arange; rewrite !length_map, length_seq; reflexivity).
  rewrite <- L at 1. apply set_last_last. lia.
Qed.

End LinspaceEnds.

Lemma nth_map_default {A : Type} (f : A -> Qc) (l : list A) (d : A) (i : nat) :
  (i < length l)%nat -> nth i (map f l) 0 = f (nth i l d).
Proof.
  intros H. rewrite (nth_indep _ 0 (f d)) by (rewrite length_map; exact H).
  apply map_nth.
Qed.

(** C2.  When the costs are such that the first edge is at least 999.5 and
    the last edge below 10500, twenty-two buckets or more cannot all have
    different labels, whatever the values of the edges in between:
    [create_cost_buckets] raises [ValueError] and returns no bucket. *)
Theorem narrow_range_raises (np_log10 np_power10 : Qc -> Qc)
    (df : DataFrame) (n : nat) (lo hi : Qc) :
  series_min (cost_column df) = Some lo ->
  series_max (cost_column df) = Some hi ->
  0 < lo ->
  (22 <= n)%nat ->
  qz 1999 / qz 2 <= np_power10 (np_log10 lo) ->
  np_power10 (np_log10 hi) < qz 10500 ->
  exists msg, create_cost_buckets np_log10 np_power10 df n = Raised (ValueError msg).
Proof.
  intros Hmin Hmax Hpos Hn Hfirst Hlast.
  unfold create_cost_buckets. rewrite Hmin, Hmax.
  apply Qcltb_lt in Hpos. rewrite Hpos.
  set (edges := make_bucket_edges np_log10 np_power10 lo hi n).
  assert (Hlen : length edges = (n + 1)%nat).
  { unfold edges, make_bucket_edges. rewrite length_map. apply np_linspace_length. lia. }
  assert (H0 : nth 0 edges 0 = np_power10 (np_log10 lo)).
  { unfold edges, make_bucket_edges.
    rewrite (nth_map_default _ _ 0) by (rewrite np_linspace_length; lia).
    rewrite np_linspace_first by lia. reflexivity. }
  assert (Hn' : nth (length edges - 1) edges 0 = np_power10 (np_log10 hi)).
  { rewrite Hlen. unfold edges, make_bucket_edges.
    rewrite (nth_map_default _ _ 0) by (rewrite np_linspace_length; lia).
    rewrite np_linspace_last by lia. reflexivity. }
  destruct (pd_cut (cost_column df) edges (make_bucket_labels edges))
    as [codes | [msg]] eqn:Hcut.
  - exfalso. revert Hcut. apply narrow_edges_rejected.
    + lia.
    + rewrite H0. exact Hfirst.
    + rewrite Hn'. exact Hlast.
  - exists msg. reflexivity.
Qed.

Lemma narrow_range_raises_witness :
  exists msg,
    create_cost_buckets log10_chord pow10_chord two_row_table 50
    = Raised (ValueError msg).
Proof.
  apply (narrow_range_raises log10_chord pow10_chord two_row_table 50 (qz 1000) (qz 10000)).
  - reflexivity.
  - reflexivity.
  - reflexivity.
  - lia.
  - vm_compute. discriminate.
  - vm_compute. reflexivity.
Defined.

(** ** What a successful call returns *)

Lemma np_linspace_samples (start stop : Qc) (num : nat) :
  length (np_linspace start stop num) = num.
Proof.
  unfold np_linspace.
  assert (L : forall g : Qc -> Qc, length (map g (arange num)) = num)
    by (intros g; unfold arange; rewrite !length_map, length_seq; reflexivity).
  destruct (1 <? num)%nat; [rewrite set_last_length |];
    rewrite length_map;
    (destruct (0 <? num - 1)%nat; [destruct (Qceqb _ 0) |]); apply L.
Qed.

(** Whenever [create_cost_buckets] returns, it returns [num_buckets + 1]
    non-decreasing edges and [num_buckets] pairwise distinct labels, and
    every code it assigns is below [num_buckets]. *)
Lemma successful_call_shape (np_log10 np_power10 : Qc -> Qc)
    (df df' : DataFrame) (n : nat) (edges : list Qc) (labels : list string) :
  create_cost_buckets np_log10 np_power10 df n = Return (df', edges, labels) ->
  length edges = (n + 1)%nat
  /\ length labels = n
  /\ NoDup labels
  /\ is_monotonic_increasing edges = true
  /\ forall c i, cut_code edges c = Some i -> (i < n)%nat.
Proof.
  intros H.
  pose proof (create_cost_buckets_checks _ _ _ _ _ _ _ H) as (Hm & _ & Hlab & Hlen).
  assert (Hedges : length edges = (n + 1)%nat).
  { revert H. unfold create_cost_buckets.
    destruct (series_min (cost_column df)) as [mn |]; [| discriminate].
    destruct (series_max (cost_column df)) as [mx |]; [| discriminate].
    destruct (Qcltb 0 mn).
    - destruct (pd_cut _ _ _) as [codes | e]; [| discriminate].
      intros [= _ <- _]. unfold make_bucket_edges.
      rewrite length_map. apply np_linspace_samples.
    - destruct (Qceqb mn 0 && (n =? 0)%nat) eqn:E; [| discriminate].
      apply andb_true_iff in E. destruct E as [_ E]. apply Nat.eqb_eq in E.
      intros [= _ <- _]. subst n. reflexivity. }
  split; [exact Hedges |]. split; [lia |].
  split; [apply (has_duplicates_NoDup String.eqb); [apply String.eqb_eq | exact Hlab] |].
  split; [exact Hm |].
  intros c i Hc. apply (cut_code_in_bucket edges c i Hm) in Hc.
  destruct Hc as [Hi _]. lia.
Qed.

(* ================================================================== *)
(** * Part III: the rest of [Home.py] *)
(* ================================================================== *)

(** ** Sorting by insertion *)

Section SortBy.

Context {A : Type}.
Variable before : A -> A -> bool.

Lemma insert_by_perm (x : A) (l : list A) : Permutation (insert_by before x l) (x :: l).
Proof.
  induction l as [| y l IH]; simpl; [reflexivity |].
  destruct (before x y); [reflexivity |].
  rewrite IH. apply perm_swap.
Qed.

Lemma sort_by_perm (l : list A) : Permutation (sort_by before l) l.
Proof.
  unfold sort_by. induction l as [| x l IH]; simpl; [reflexivity |].
  rewrite insert_by_perm. constructor. exact IH.
Qed.

Hypothesis before_total : forall x y, before x y = false -> before y x = true.
Hypothesis before_trans :
  forall x y z, before x y = true -> before y z = true -> before x z = true.

Lemma insert_by_sorted (x : A) (l : list A) :
  StronglySorted (fun a b => before a b = true) l ->
  StronglySorted (fun a b => before a b = true) (insert_by before x l).
Proof.
  induction l as [| y l IH]; simpl; intros Hs.
  - constructor; constructor.
  - inversion Hs as [| y' l' Hrest Hall]; subst.
    destruct (before x y) eqn:E.
    + constructor; [exact Hs |]. constructor; [exact E |].
      eapply Forall_impl; [| exact Hall].
      intros z Hz. eapply before_trans; eassumption.
    + constructor; [apply IH; exact Hrest |].
      apply Forall_forall. intros z Hz.
      apply (Permutation_in _ (insert_by_perm x l)) in Hz.
      destruct Hz as [<- | Hz].
      * apply before_total. exact E.
      * rewrite Forall_forall in Hall. apply Hall. exact Hz.
Qed.

Lemma sort_by_sorted (l : list A) :
  StronglySorted (fun a b => before a b = true) (sort_by before l).
Proof.
  unfold sort_by. induction l as [| x l IH]; simpl.
  - constructor.
  - apply insert_by_sorted. exact IH.
Qed.

End SortBy.

(** The first [n] of a sorted list: as many as there are, up to [n], and
    each of them may stand before each of the others. *)
Lemma firstn_of_sorted {A : Type} (R : A -> A -> Prop) (n : nat) (sorted l : list A) :
  StronglySorted R sorted -> Permutation sorted l ->
  length (firstn n sorted) = Nat.min n (length l)
  /\ StronglySorted R (firstn n sorted)
  /\ exists rest,
       Permutation (firstn n sorted ++ rest) l
       /\ forall a b, In a (firstn n sorted) -> In b rest -> R a b.
Proof.
  intros Hs Hp.
  rewrite <- (firstn_skipn n sorted) in Hs.
  apply sorted_app_split in Hs. destruct Hs as [Htop Hcross].
  split; [| split].
  - rewrite length_firstn, (Permutation_length Hp). reflexivity.
  - exact Htop.
  - exists (skipn n sorted). split; [| exact Hcross].
    rewrite firstn_skipn. exact Hp.
Qed.

(** ** Distinct values and their frequencies *)

Section CountBy.

Context {K : Type}.
Variable eqb : K -> K -> bool.
Hypothesis eqb_spec : forall x y, eqb x y = true <-> x = y.

Lemma unique_by_In (x : K) (l : list K) : In x (unique_by eqb l) <-> In x l.
Proof.
  induction l as [| a l IH]; simpl; [tauto |].
  rewrite filter_In, IH, negb_true_iff.
  destruct (eqb a x) eqn:E.
  - apply eqb_spec in E. subst a. split; [tauto | intros _; left; reflexivity].
  - split; [tauto |]. intros [H | H]; [| tauto].
    apply eqb_spec in H. congruence.
Qed.

Lemma unique_by_NoDup (l : list K) : NoDup (unique_by eqb l).
Proof.
  induction l as [| a l IH]; simpl; constructor.
  - rewrite filter_In, negb_true_iff. intros [_ H].
    assert (E : eqb a a = true) by (apply eqb_spec; reflexivity). congruence.
  - apply NoDup_filter. exact IH.
Qed.

Lemma count_of_cons (k a : K) (l : list K) :
  count_of eqb k (a :: l) = ((if eqb k a then 1 else 0) + count_of eqb k l)%nat.
Proof. unfold count_of. simpl. destruct (eqb k a); reflexivity. Qed.

Lemma count_of_pos (k : K) (l : list K) : In k l -> (1 <= count_of eqb k l)%nat.
Proof.
  induction l as [| a l IH]; simpl; [tauto |]. rewrite count_of_cons.
  intros [-> | H].
  - replace (eqb k k) with true by (symmetry; apply eqb_spec; reflexivity). lia.
  - specialize (IH H). lia.
Qed.

Lemma matches_once (v : K) (keys : list K) :
  NoDup keys -> In v keys ->
  list_sum (map (fun k => if eqb k v then 1 else 0)%nat keys) = 1%nat.
Proof.
  induction 1 as [| k keys Hnotin Hnd IH]; simpl; intros Hin; [contradiction |].
  destruct (eqb k v) eqn:E.
  - apply eqb_spec in E. subst k.
    replace (list_sum _) with 0%nat; [reflexivity |].
    clear IH Hnd Hin. induction keys as [| k keys IHk]; simpl; [reflexivity |].
    destruct (eqb k v) eqn:E.
    + apply eqb_spec in E. subst k. exfalso. apply Hnotin. left. reflexivity.
    + apply IHk. intros H. apply Hnotin. right. exact H.
  - destruct Hin as [-> | Hin]; [| apply IH; exact Hin].
    assert (eqb v v = true) by (apply eqb_spec; reflexivity). congruence.
Qed.

(** Over pairwise distinct keys that cover the list, the frequencies add
    up to the length of the list. *)
Lemma counts_sum (keys l : list K) :
  NoDup keys -> (forall v, In v l -> In v keys) ->
  list_sum (map (fun k => count_of eqb k l) keys) = length l.
Proof.
  intros Hnd. induction l as [| a l IH]; intros Hcover.
  - clear. induction keys; simpl; auto.
  - assert (step : list_sum (map (fun k => count_of eqb k (a :: l)) keys)
                   = (list_sum (map (fun k => if eqb k a then 1 else 0) keys)
                      + list_sum (map (fun k => count_of eqb k l) keys))%nat).
    { clear. induction keys as [| k keys IHk]; simpl; [reflexivity |].
      rewrite IHk, count_of_cons. lia. }
    rewrite step.
    rewrite IH by (intros v Hv; apply Hcover; right; exact Hv).
    rewrite matches_once; [reflexivity | exact Hnd | apply Hcover; left; reflexivity].
Qed.

End CountBy.

Lemma dropna_In {A : Type} (l : list (option A)) (a : A) : In a (dropna l) <-> In (Some a) l.
Proof.
  induction l as [| [b |] l IH]; simpl; [tauto | |].
  - rewrite IH. split; intros [H | H]; auto; left; congruence.
  - rewrite IH. split; [tauto |]. intros [H | H]; [discriminate | exact H].
Qed.

Lemma column_values_In (col : TenderRecord -> option string) (df : DataFrame) (s : string) :
  In s (column_values col df) <-> exists r, In r (df_rows df) /\ col r = Some s.
Proof.
  unfold column_values. rewrite dropna_In, in_map_iff.
  split; intros (r & H1 & H2); exists r; auto.
Qed.

Lemma dropna_length_filter {A : Type} (f : TenderRecord -> option A) (rows : list TenderRecord) :
  length (dropna (map f rows))
  = length (filter (fun r => match f r with Some _ => true | None => false end) rows).
Proof.
  induction rows as [| r rows IH]; simpl; [reflexivity |].
  destruct (f r); simpl; rewrite IH; reflexivity.
Qed.

(** ** The cost slider and the select boxes *)

Lemma fold_left_Qcmin_spec (l : list Qc) (a : Qc) :
  (fold_left Qcmin l a = a \/ In (fold_left Qcmin l a) l)
  /\ fold_left Qcmin l a <= a
  /\ forall x, In x l -> fold_left Qcmin l a <= x.
Proof.
  revert a. induction l as [| y l IH]; intros a; simpl.
  - split; [left; reflexivity |]. split; [apply Qcle_refl | intros x []].
  - destruct (IH (Qcmin a y)) as (Hin & Hle & Hall).
    assert (Hm : Qcmin a y <= a /\ Qcmin a y <= y /\ (Qcmin a y = a \/ Qcmin a y = y)).
    { unfold Qcmin. destruct (Qcltb y a) eqn:E.
      - apply Qcltb_lt in E. split; [apply Qclt_le_weak; exact E |].
        split; [apply Qcle_refl | right; reflexivity].
      - apply Qcltb_ge in E. split; [apply Qcle_refl |].
        split; [exact E | left; reflexivity]. }
    destruct Hm as (Ha & Hy & Hor).
    split; [| split].
    + destruct Hin as [Hin | Hin]; [| right; right; exact Hin].
      rewrite Hin. destruct Hor as [-> | ->]; [left | right; left]; reflexivity.
    + eapply Qcle_trans; eassumption.
    + intros x [<- | Hx]; [eapply Qcle_trans; eassumption | apply Hall; exact Hx].
Qed.

Lemma fold_left_Qcmax_spec (l : list Qc) (a : Qc) :
  (fold_left Qcmax l a = a \/ In (fold_left Qcmax l a) l)
  /\ a <= fold_left Qcmax l a
  /\ forall x, In x l -> x <= fold_left Qcmax l a.
Proof.
  revert a. induction l as [| y l IH]; intros a; simpl.
  - split; [left; reflexivity |]. split; [apply Qcle_refl | intros x []].
  - destruct (IH (Qcmax a y)) as (Hin & Hle & Hall).
    assert (Hm : a <= Qcmax a y /\ y <= Qcmax a y /\ (Qcmax a y = a \/ Qcmax a y = y)).
    { unfold Qcmax. destruct (Qcltb a y) eqn:E.
      - apply Qcltb_lt in E. split; [apply Qclt_le_weak; exact E |].
        split; [apply Qcle_refl | right; reflexivity].
      - apply Qcltb_ge in E. split; [apply Qcle_refl |].
        split; [exact E | left; reflexivity]. }
    destruct Hm as (Ha & Hy & Hor).
    split; [| split].
    + destruct Hin as [Hin | Hin]; [| right; right; exact Hin].
      rewrite Hin. destruct Hor as [-> | ->]; [left | right; left]; reflexivity.
    + eapply Qcle_trans; eassumption.
    + intros x [<- | Hx]; [eapply Qcle_trans; eassumption | apply Hall; exact Hx].
Qed.

(** [min()] and [max()] return entries of the column that bound it. *)
Lemma series_min_spec (xs : list Qc) (m : Qc) :
  series_min xs = Some m -> In m xs /\ forall x, In x xs -> m <= x.
Proof.
  destruct xs as [| a l]; [discriminate |]. intros [= <-].
  destruct (fold_left_Qcmin_spec l a) as (Hin & Hle & Hall). split.
  - destruct Hin as [-> | Hin]; [left; reflexivity | right; exact Hin].
  - intros x [<- | Hx]; [exact Hle | apply Hall; exact Hx].
Qed.

Lemma series_max_spec (xs : list Qc) (m : Qc) :
  series_max xs = Some m -> In m xs /\ forall x, In x xs -> x <= m.
Proof.
  destruct xs as [| a l]; [discriminate |]. intros [= <-].
  destruct (fold_left_Qcmax_spec l a) as (Hin & Hle & Hall). split.
  - destruct Hin as [-> | Hin]; [left; reflexivity | right; exact Hin].
  - intros x [<- | Hx]; [exact Hle | apply Hall; exact Hx].
Qed.

Lemma slider_bounds_spec (df : DataFrame) (lo hi : Qc) :
  slider_bounds df = Some (lo, hi) ->
  series_min (cost_column df) = Some lo /\ series_max (cost_column df) = Some hi.
Proof.
  unfold slider_bounds.
  destruct (series_min (cost_column df)); [| discriminate].
  destruct (series_max (cost_column df)); [| discriminate].
  intros [= <- <-]. auto.
Qed.

Lemma cost_column_In (df : DataFrame) (c : Qc) :
  In c (cost_column df) <-> exists r, In r (df_rows df) /\ estimated_cost r = c.
Proof.
  unfold cost_column. rewrite in_map_iff.
  split; intros (r & H1 & H2); exists r; auto.
Qed.

Lemma filter_all {A : Type} (f : A -> bool) (l : list A) :
  (forall x, In x l -> f x = true) -> filter f l = l.
Proof.
  intros H. induction l as [| x l IH]; simpl; [reflexivity |].
  rewrite (H x (or_introl eq_refl)), IH; [reflexivity |].
  intros y Hy. apply H. right. exact Hy.
Qed.

Lemma filter_refine {A : Type} (f g : A -> bool) (l : list A) :
  (forall x, In x l -> g x = true -> f x = true) ->
  filter g (filter f l) = filter g l.
Proof.
  intros H. induction l as [| x l IH]; simpl; [reflexivity |].
  assert (IH' : filter g (filter f l) = filter g l)
    by (apply IH; intros y Hy; apply H; right; exact Hy).
  destruct (f x) eqn:F; simpl.
  - rewrite IH'. reflexivity.
  - destruct (g x) eqn:G; [| exact IH'].
    rewrite (H x (or_introl eq_refl) G) in F. discriminate.
Qed.

Lemma choice_ok_iff (col : TenderRecord -> option string) (sel : string) (r : TenderRecord) :
  choice_ok col sel r = true <-> sel = "All"%string \/ col r = Some sel.
Proof.
  unfold choice_ok. rewrite orb_true_iff, String.eqb_eq.
  destruct (col r) as [v |].
  - rewrite String.eqb_eq. split; intros [H | H]; auto.
    + subst. auto.
    + injection H as ->. auto.
  - split; intros [H | H]; auto; discriminate.
Qed.

Lemma passes_all_iff (lo hi : Qc) (s p : string) (r : TenderRecord) :
  cost_ok lo hi r && choice_ok procurement_sector_code s r
  && choice_ok procedure_type_code p r = true
  <-> (lo <= estimated_cost r /\ estimated_cost r <= hi)
      /\ (s = "All"%string \/ procurement_sector_code r = Some s)
      /\ (p = "All"%string \/ procedure_type_code r = Some p).
Proof.
  rewrite !andb_true_iff, !choice_ok_iff. unfold cost_ok.
  rewrite andb_true_iff, !Qcleb_le. tauto.
Qed.

(** The slider starts on the whole range of the costs.  With it there and
    both select boxes on "All", the filters keep every row; the two bounds
    are costs of rows of the table and the lower one is not above the
    upper one. *)
Theorem default_widgets_keep_every_row (df : DataFrame) (lo hi : Qc) :
  slider_bounds df = Some (lo, hi) ->
  df_rows (apply_filters df lo hi "All" "All") = df_rows df
  /\ lo <= hi
  /\ (exists r, In r (df_rows df) /\ estimated_cost r = lo)
  /\ (exists r, In r (df_rows df) /\ estimated_cost r = hi).
Proof.
  intros H. apply slider_bounds_spec in H. destruct H as [Hmin Hmax].
  apply series_min_spec in Hmin. apply series_max_spec in Hmax.
  destruct Hmin as [Hlo Hmin]. destruct Hmax as [Hhi Hmax].
  split; [| split; [| split]].
  - rewrite apply_filters_rows. apply filter_all. intros r Hr.
    apply passes_all_iff.
    assert (Hc : In (estimated_cost r) (cost_column df))
      by (apply cost_column_In; exists r; auto).
    auto.
  - apply Hmin. exact Hhi.
  - apply cost_column_In. exact Hlo.
  - apply cost_column_In. exact Hhi.
Qed.

Lemma default_widgets_keep_every_row_witness :
  df_rows (apply_filters decades_table (qz 100) (qz 100000) "All" "All")
  = df_rows decades_table
  /\ qz 100 <= qz 100000
  /\ (exists r, In r (df_rows decades_table) /\ estimated_cost r = qz 100)
  /\ (exists r, In r (df_rows decades_table) /\ estimated_cost r = qz 100000).
Proof.
  apply (default_widgets_keep_every_row decades_table (qz 100) (qz 100000)).
  reflexivity.
Defined.

(** Whatever the widgets hold, the costs that remain lie within the range
    of the slider: so do their minimum and maximum, from which the bucket
    edges are computed. *)
Theorem filtered_costs_within_range (df : DataFrame) (lo hi a b : Qc) (s p : string) :
  slider_bounds (apply_filters df lo hi s p) = Some (a, b) ->
  lo <= a /\ a <= b /\ b <= hi.
Proof.
  intros H. apply slider_bounds_spec in H. destruct H as [Hmin Hmax].
  apply series_min_spec in Hmin. apply series_max_spec in Hmax.
  destruct Hmin as [Ha Hmin]. destruct Hmax as [Hb Hmax].
  assert (Hrange : forall c, In c (cost_column (apply_filters df lo hi s p)) ->
                             lo <= c /\ c <= hi).
  { intros c Hc. apply cost_column_In in Hc. destruct Hc as (r & Hr & <-).
    rewrite apply_filters_rows in Hr. apply filter_In in Hr.
    destruct Hr as [_ Hr]. apply passes_all_iff in Hr. tauto. }
  split; [apply Hrange; exact Ha |].
  split; [apply Hmin; exact Hb | apply Hrange; exact Hb].
Qed.

Lemma filtered_costs_within_range_witness :
  qz 500 <= qz 1000 /\ qz 1000 <= qz 10000 /\ qz 10000 <= qz 50000.
Proof.
  apply (filtered_costs_within_range decades_table (qz 500) (qz 50000)
           (qz 1000) (qz 10000) "All" "All").
  reflexivity.
Defined.

(** Filtering what a first setting of the widgets left, with a setting
    that asks for no less (a range inside the first, and for each select
    box the first choice or any choice after "All"), gives the rows that
    the second setting alone gives.  In particular the filters are
    idempotent, and narrowing the range only removes rows. *)
Theorem refiltering_is_filtering_once (df : DataFrame) (lo hi lo' hi' : Qc)
    (s p s' p' : string) :
  lo <= lo' -> hi' <= hi ->
  s = "All"%string \/ s = s' ->
  p = "All"%string \/ p = p' ->
  df_rows (apply_filters (apply_filters df lo hi s p) lo' hi' s' p')
  = df_rows (apply_filters df lo' hi' s' p')
  /\ subseq (df_rows (apply_filters df lo' hi' s' p'))
            (df_rows (apply_filters df lo hi s p)).
Proof.
  intros Hlo Hhi Hs Hp.
  assert (E : df_rows (apply_filters (apply_filters df lo hi s p) lo' hi' s' p')
              = df_rows (apply_filters df lo' hi' s' p')).
  { rewrite (apply_filters_rows (apply_filters df lo hi s p)).
    rewrite !(apply_filters_rows df).
    apply filter_refine. intros r _ Hr.
    apply passes_all_iff in Hr. apply passes_all_iff.
    destruct Hr as ([H1 H2] & H3 & H4).
    split; [split; eapply Qcle_trans; eassumption |].
    split.
    - destruct Hs as [-> | ->]; [left; reflexivity | exact H3].
    - destruct Hp as [-> | ->]; [left; reflexivity | exact H4]. }
  split; [exact E |].
  rewrite <- E. rewrite (apply_filters_rows (apply_filters df lo hi s p)).
  apply filter_subseq.
Qed.

Lemma refiltering_is_filtering_once_witness :
  df_rows (apply_filters (apply_filters sector_table (qz 100) (qz 200) "All" "All")
                         (qz 150) (qz 200) "B" "All")
  = df_rows (apply_filters sector_table (qz 150) (qz 200) "B" "All")
  /\ subseq (df_rows (apply_filters sector_table (qz 150) (qz 200) "B" "All"))
            (df_rows (apply_filters sector_table (qz 100) (qz 200) "All" "All")).
Proof.
  apply refiltering_is_filtering_once.
  - discriminate.
  - discriminate.
  - left. reflexivity.
  - left. reflexivity.
Defined.

Lemma string_leb_total (x y : string) : String.leb x y = false -> String.leb y x = true.
Proof.
  intros H. destruct (String.leb_total x y) as [K | K]; [congruence | exact K].
Qed.

Lemma string_leb_cases (x y : string) : String.leb x y = true <-> key_lt x y \/ x = y.
Proof.
  unfold String.leb, key_lt. destruct (String.compare x y) eqn:E.
  - apply String.compare_eq_iff in E. tauto.
  - tauto.
  - split; [discriminate |]. intros [H | ->]; [discriminate |].
    assert (K : String.compare y y = Eq) by (apply String_as_OT.cmp_eq; reflexivity).
    congruence.
Qed.

Lemma string_leb_trans (x y z : string) :
  String.leb x y = true -> String.leb y z = true -> String.leb x z = true.
Proof.
  rewrite !string_leb_cases. intros [H1 | ->] [H2 | ->]; auto.
  left. eapply key_lt_trans; eassumption.
Qed.

Lemma sorted_distinct_strict (l : list string) :
  StronglySorted (fun a b => String.leb a b = true) l -> NoDup l ->
  StronglySorted key_lt l.
Proof.
  induction 1 as [| a l Hs IH Hall]; intros Hnd; [constructor |].
  inversion Hnd as [| a' l' Hnotin Hnd']; subst.
  constructor; [apply IH; exact Hnd' |].
  rewrite Forall_forall in *. intros x Hx.
  destruct (proj1 (string_leb_cases a x) (Hall x Hx)) as [H | ->];
    [exact H | contradiction].
Qed.

(** A select box offers "All" and then, in strictly ascending order and
    hence without repetition, exactly the values that occur in its column;
    a null is not offered. *)
Theorem select_options_offer_what_occurs (col : TenderRecord -> option string)
    (df : DataFrame) :
  exists rest,
    select_options col df = "All"%string :: rest
    /\ StronglySorted key_lt rest
    /\ forall s, In s rest <-> exists r, In r (df_rows df) /\ col r = Some s.
Proof.
  eexists. split; [reflexivity |].
  set (values := unique_by String.eqb (column_values col df)).
  pose proof (sort_by_perm String.leb values) as Hperm.
  split.
  - apply sorted_distinct_strict.
    + apply sort_by_sorted; [exact string_leb_total | exact string_leb_trans].
    + apply (Permutation_NoDup (Permutation_sym Hperm)).
      apply unique_by_NoDup. exact String.eqb_eq.
  - intros s. rewrite <- column_values_In.
    split; intros H.
    + apply (proj1 (unique_by_In String.eqb String.eqb_eq _ _)).
      apply (Permutation_in _ Hperm). exact H.
    + apply (Permutation_in _ (Permutation_sym Hperm)).
      apply (proj2 (unique_by_In String.eqb String.eqb_eq _ _)). exact H.
Qed.

Lemma select_options_In (col : TenderRecord -> option string) (df : DataFrame) (s : string) :
  In s (select_options col df) ->
  s = "All"%string \/ exists r, In r (df_rows df) /\ col r = Some s.
Proof.
  unfold select_options. intros [H | H]; [left; symmetry; exact H | right].
  apply (Permutation_in _ (sort_by_perm String.leb _)) in H.
  apply (proj1 (unique_by_In String.eqb String.eqb_eq _ _)) in H.
  apply column_values_In. exact H.
Qed.

(** With the slider on its whole range, choosing any one option that a
    select box offers and leaving the other box on "All" never empties the
    table. *)
Theorem offered_option_leaves_rows (df : DataFrame) (lo hi : Qc) (s : string) :
  slider_bounds df = Some (lo, hi) ->
  (In s (select_options procurement_sector_code df) ->
   df_rows (apply_filters df lo hi s "All") <> [])
  /\ (In s (select_options procedure_type_code df) ->
      df_rows (apply_filters df lo hi "All" s) <> []).
Proof.
  intros H. apply slider_bounds_spec in H. destruct H as [Hmin Hmax].
  apply series_min_spec in Hmin. apply series_max_spec in Hmax.
  destruct Hmin as [Hlo Hmin]. destruct Hmax as [_ Hmax].
  assert (Hrange : forall r, In r (df_rows df) ->
                             lo <= estimated_cost r /\ estimated_cost r <= hi).
  { intros r Hr.
    assert (In (estimated_cost r) (cost_column df))
      by (apply cost_column_In; exists r; auto).
    auto. }
  assert (Hsome : exists r, In r (df_rows df)).
  { apply cost_column_In in Hlo. destruct Hlo as (r & Hr & _). exists r. exact Hr. }
  assert (Hkeep : forall s1 s2 r,
             In r (df_rows df) ->
             (s1 = "All"%string \/ procurement_sector_code r = Some s1) ->
             (s2 = "All"%string \/ procedure_type_code r = Some s2) ->
             df_rows (apply_filters df lo hi s1 s2) <> []).
  { intros s1 s2 r Hr H1 H2 E.
    assert (K : In r (df_rows (apply_filters df lo hi s1 s2))).
    { rewrite apply_filters_rows. apply filter_In. split; [exact Hr |].
      apply passes_all_iff. auto. }
    rewrite E in K. exact K. }
  split; intros Hin; apply select_options_In in Hin.
  - destruct Hin as [-> | (r & Hr & Hs)].
    + destruct Hsome as (r & Hr). apply (Hkeep _ _ r Hr); left; reflexivity.
    + apply (Hkeep _ _ r Hr); [right; exact Hs | left; reflexivity].
  - destruct Hin as [-> | (r & Hr & Hs)].
    + destruct Hsome as (r & Hr). apply (Hkeep _ _ r Hr); left; reflexivity.
    + apply (Hkeep _ _ r Hr); [left; reflexivity | right; exact Hs].
Qed.

Lemma offered_option_leaves_rows_witness :
  (In "B"%string (select_options procurement_sector_code sector_table) ->
   df_rows (apply_filters sector_table (qz 100) (qz 200) "B" "All") <> [])
  /\ (In "B"%string (select_options procedure_type_code sector_table) ->
      df_rows (apply_filters sector_table (qz 100) (qz 200) "All" "B") <> []).
Proof.
  apply (offered_option_leaves_rows sector_table (qz 100) (qz 200) "B").
  reflexivity.
Defined.

(** ** The sector and procedure charts, the timeline and the table *)

Lemma StronglySorted_weaken {A : Type} (R S : A -> A -> Prop) (l : list A) :
  (forall a b, R a b -> S a b) -> StronglySorted R l -> StronglySorted S l.
Proof.
  intros H. induction 1 as [| a l Hs IH Hall]; constructor; [exact IH |].
  eapply Forall_impl; [| exact Hall]. intros b. apply H.
Qed.

(** [value_counts] lists every value that occurs in the column once, with
    the number of rows that carry it, which is at least one; the numbers
    add up to the number of rows that have a value, and they never
    increase down the list. *)
Theorem value_counts_account (col : TenderRecord -> option string) (df : DataFrame) :
  NoDup (map fst (value_counts col df))
  /\ (forall k, In k (map fst (value_counts col df)) <->
                exists r, In r (df_rows df) /\ col r = Some k)
  /\ (forall k c, In (k, c) (value_counts col df) ->
        c = count_of String.eqb k (column_values col df) /\ (1 <= c)%nat)
  /\ list_sum (map snd (value_counts col df))
     = length (filter (has_value col) (df_rows df))
  /\ StronglySorted (fun a b => (snd b <= snd a)%nat) (value_counts col df).
Proof.
  unfold value_counts.
  set (values := column_values col df).
  set (table := map (fun k => (k, count_of String.eqb k values))
                    (unique_by String.eqb values)).
  set (before := fun a b : string * nat => (snd b <=? snd a)%nat).
  pose proof (sort_by_perm before table) as Hperm.
  assert (Hfst : map fst table = unique_by String.eqb values).
  { unfold table. rewrite map_map. simpl. apply map_id. }
  split; [| split; [| split; [| split]]].
  - apply (Permutation_NoDup (Permutation_sym (Permutation_map fst Hperm))).
    rewrite Hfst. apply unique_by_NoDup. exact String.eqb_eq.
  - intros k. rewrite <- column_values_In. fold values.
    rewrite <- (unique_by_In String.eqb String.eqb_eq k values), <- Hfst.
    split; intros H.
    + apply (Permutation_in _ (Permutation_map fst Hperm)). exact H.
    + apply (Permutation_in _ (Permutation_sym (Permutation_map fst Hperm))). exact H.
  - intros k c H. apply (Permutation_in _ Hperm) in H.
    unfold table in H. apply in_map_iff in H. destruct H as (k' & [= -> <-] & Hk).
    split; [reflexivity |].
    apply (count_of_pos String.eqb String.eqb_eq).
    apply (proj1 (unique_by_In String.eqb String.eqb_eq _ _)). exact Hk.
  - rewrite (Permutation_map snd Hperm).
    unfold table. rewrite map_map. simpl.
    rewrite (counts_sum String.eqb String.eqb_eq).
    + unfold values, column_values. apply dropna_length_filter.
    + apply unique_by_NoDup. exact String.eqb_eq.
    + intros v Hv. apply (proj2 (unique_by_In String.eqb String.eqb_eq _ _)). exact Hv.
  - apply (StronglySorted_weaken (fun a b => before a b = true)).
    + intros a b H. apply Nat.leb_le. exact H.
    + apply sort_by_sorted; unfold before.
      * intros x y H. apply Nat.leb_gt in H. apply Nat.leb_le. lia.
      * intros x y z H1 H2. apply Nat.leb_le in H1, H2. apply Nat.leb_le. lia.
Qed.

Section TimelineFacts.

Variable to_period_M : Z -> Z.


End TimelineFacts.

Lemma deadline_before_not_earlier (a b : DisplayRow) :
  deadline_before a b = true -> not_earlier a b.
Proof.
  unfold deadline_before, not_earlier.
  destruct (disp_submission_deadline a), (disp_submission_deadline b);
    try discriminate; auto.
  apply Z.leb_le.
Qed.

(** The table shows twenty tenders, or all of them if they are fewer, each
    with its name, category, sector and deadline unchanged and its cost as
    text; the rows run from the latest deadline to the earliest with the
    undated ones last, and no row left out has a later deadline than a
    row shown. *)
Theorem recent_tenders_latest_first (df : DataFrame) :
  length (recent_tenders df) = Nat.min 20 (length (df_rows df))
  /\ StronglySorted not_earlier (recent_tenders df)
  /\ (forall d, In d (recent_tenders df) ->
        exists r, In r (df_rows df) /\ d = display_row r)
  /\ exists rest,
       Permutation (recent_tenders df ++ rest) (map display_row (df_rows df))
       /\ forall a b, In a (recent_tenders df) -> In b rest -> not_earlier a b.
Proof.
  unfold recent_tenders.
  set (shown := map display_row (df_rows df)).
  assert (Hsorted : StronglySorted not_earlier (sort_by deadline_before shown)).
  { apply (StronglySorted_weaken (fun a b => deadline_before a b = true));
      [exact deadline_before_not_earlier |].
    apply sort_by_sorted; unfold deadline_before.
    - intros x y. destruct (disp_submission_deadline x), (disp_submission_deadline y);
        try discriminate; auto.
      intros H. apply Z.leb_gt in H. apply Z.leb_le. lia.
    - intros x y z.
      destruct (disp_submission_deadline x), (disp_submission_deadline y),
        (disp_submission_deadline z); try discriminate; auto.
      intros H1 H2. apply Z.leb_le in H1, H2. apply Z.leb_le. lia. }
  destruct (firstn_of_sorted not_earlier 20 _ shown Hsorted (sort_by_perm _ shown))
    as (Hlen & Htop & rest & Hperm & Hcross).
  split; [| split; [| split]].
  - rewrite Hlen. unfold shown. rewrite length_map. reflexivity.
  - exact Htop.
  - intros d Hd.
    assert (K : In d shown).
    { apply (Permutation_in _ Hperm). apply in_or_app. left. exact Hd. }
    unfold shown in K. apply in_map_iff in K. destruct K as (r & <- & Hr).
    exists r. auto.
  - exists rest. auto.
Qed.

(** ** The metrics and the order of the rows *)









(** ** Thousands separators *)

Lemma group3_strip (k : nat) (l : list ascii) :
  forallb not_comma l = true -> filter not_comma (group3 k l) = l.
Proof.
  revert k. induction l as [| d l IH]; intros k H; [reflexivity |].
  simpl in H. apply andb_true_iff in H. destruct H as [Hd Hl].
  assert (step : forall j, filter not_comma (d :: group3 j l) = d :: l)
    by (intros j; simpl; rewrite Hd, (IH j Hl); reflexivity).
  simpl. destruct k as [| [| [| [| k]]]]; apply step.
Qed.

Lemma forallb_rev {A : Type} (f : A -> bool) (l : list A) :
  forallb f (rev l) = forallb f l.
Proof.
  induction l as [| a l IH]; [reflexivity |].
  simpl. rewrite forallb_app, IH. simpl. rewrite andb_true_r. apply andb_comm.
Qed.

Lemma strip_with_commas (ds : string) :
  forallb not_comma (list_ascii_of_string ds) = true ->
  strip_commas (with_commas ds) = ds.
Proof.
  intros H. unfold strip_commas, with_commas.
  rewrite list_ascii_of_string_of_list_ascii.
  change (fun c => negb (Ascii.eqb c ","%char)) with not_comma.
  rewrite filter_rev, group3_strip by (rewrite forallb_rev; exact H).
  rewrite rev_involutive. apply string_of_list_ascii_of_string.
Qed.

Lemma uint_no_comma (d : Decimal.uint) :
  forallb not_comma (list_ascii_of_string (NilEmpty.string_of_uint d)) = true.
Proof. induction d; simpl; auto. Qed.

Lemma digits_no_comma (z : Z) : forallb not_comma (list_ascii_of_string (digits z)) = true.
Proof.
  unfold digits, NilZero.string_of_uint.
  destruct (N.to_uint (Z.to_N z)); try apply uint_no_comma. reflexivity.
Qed.

Lemma digits_injective (x y : Z) : (0 <= x)%Z -> (0 <= y)%Z -> digits x = digits y -> x = y.
Proof.
  intros Hx Hy E. unfold digits in E.
  assert (P : forall n, NilZero.uint_of_string (NilZero.string_of_uint (N.to_uint n))
                        = Some (N.to_uint n)).
  { intros n. apply NilZero.usu. destruct n; [discriminate |].
    apply DecimalPos.Unsigned.to_uint_nonnil. }
  pose proof (P (Z.to_N x)) as Px. rewrite E, P in Px.
  injection Px as Px. apply (f_equal N.of_uint) in Px.
  rewrite !DecimalN.Unsigned.of_to in Px. lia.
Qed.

(** The separators of the tender count and of the costs in the table only
    decorate: removing the commas gives back the plain digits, and two
    different counts never read the same. *)
Theorem separators_only_decorate :
  (forall n, strip_commas (fmt_count n) = digits (Z.of_nat n))
  /\ (forall n m, fmt_count n = fmt_count m -> n = m)
  /\ (forall q, 0 <= q -> strip_commas (fixed0_grouped q) = fixed0 q).
Proof.
  assert (H1 : forall n, strip_commas (fmt_count n) = digits (Z.of_nat n)).
  { intros n. change (fmt_count n) with (with_commas (digits (Z.of_nat n))).
    apply strip_with_commas, digits_no_comma. }
  split; [exact H1 |]. split.
  - intros n m E. apply (f_equal strip_commas) in E. rewrite !H1 in E.
    apply digits_injective in E; lia.
  - intros q Hq. unfold fixed0_grouped, fixed0.
    rewrite (sign_str_pos q Hq). simpl.
    apply strip_with_commas, digits_no_comma.
Qed.

Lemma separators_only_decorate_witness :
  strip_commas (fixed0_grouped (qz 1234567)) = fixed0 (qz 1234567).
Proof.
  apply (proj2 (proj2 separators_only_decorate) (qz 1234567)). discriminate.
Defined.

(** ** The histogram *)

Lemma option_nat_eqb_eq (a b : option nat) : option_nat_eqb a b = true <-> a = b.
Proof.
  destruct a as [x |], b as [y |]; simpl; try (split; [discriminate | discriminate]).
  - rewrite Nat.eqb_eq. split; [intros ->; reflexivity | intros [= ->]; reflexivity].
  - tauto.
Qed.

Lemma map_nth_seq {A : Type} (l : list A) (d : A) :
  map (fun i => nth i l d) (seq 0 (length l)) = l.
Proof.
  induction l as [| a l IH]; [reflexivity |].
  cbn [length]. rewrite <- cons_seq, <- seq_shift, map_cons, map_map.
  simpl. f_equal. exact IH.
Qed.

(** The bars stand for the labels in order, and their counts add up to the
    number of coded rows when no code reaches the number of labels. *)
Lemma bucket_counts_sum (codes : list (option nat)) (labels : list string) :
  (forall i, In (Some i) codes -> (i < length labels)%nat) ->
  map fst (bucket_counts codes labels) = labels
  /\ list_sum (map snd (bucket_counts codes labels)) = length (filter is_coded codes).
Proof.
  intros Hlt. unfold bucket_counts. rewrite !map_map. simpl. split.
  - apply map_nth_seq.
  - transitivity
      (list_sum (map (fun k => count_of option_nat_eqb k (filter is_coded codes))
                     (map Some (seq 0 (length labels))))).
    + rewrite map_map. f_equal. apply map_ext. intros i.
      unfold count_code, count_of. f_equal.
      clear. induction codes as [| [j |] codes IH]; simpl; [reflexivity | |].
      * destruct (i =? j)%nat; simpl; rewrite IH; reflexivity.
      * exact IH.
    + apply (counts_sum option_nat_eqb option_nat_eqb_eq).
      * apply Finite.Injective_map_NoDup; [| apply seq_NoDup].
        intros x y [= ->]. reflexivity.
      * intros [i |] Hv; apply filter_In in Hv; destruct Hv as [Hv Hc];
          [| discriminate].
        apply in_map. apply in_seq. specialize (Hlt i Hv). lia.
Qed.

Lemma filter_complement_length {A : Type} (f : A -> bool) (l : list A) :
  (length (filter f l) + length (filter (fun a => negb (f a)) l) = length l)%nat.
Proof.
  induction l as [| a l IH]; [reflexivity |].
  simpl. destruct (f a); simpl; lia.
Qed.

(** A value that is one of the edges, but not the first, falls into the
    bucket that this edge closes. *)
Lemma edge_closes_bucket (edges : list Qc) (i : nat) :
  is_monotonic_increasing edges = true ->
  has_duplicates Qceqb edges = false \/ length edges = 2%nat ->
  (0 < i)%nat -> (i < length edges)%nat ->
  cut_code edges (nth i edges 0) = Some (i - 1)%nat.
Proof.
  intros Hm Hd Hi Hlen. apply (cut_code_in_bucket edges _ _ Hm). split; [lia |].
  assert (Hstep : nth (i - 1) edges 0 <= nth i edges 0)
    by (apply monotonic_nth; [exact Hm | lia | lia]).
  destruct (Qcle_lt_or_eq _ _ Hstep) as [Hlt | Heq].
  - left. replace (i - 1 + 1)%nat with i by lia. split; [exact Hlt | apply Qcle_refl].
  - destruct Hd as [Hd | Hd].
    + exfalso. apply (Qcle_not_lt _ _ (Qcle_refl (nth i edges 0))).
      rewrite <- Heq at 1. replace i with (i - 1 + 1)%nat at 2 by lia.
      apply strictly_increasing_step; [exact Hm | exact Hd | lia].
    + right. assert (i = 1)%nat by lia. subst i. split; [reflexivity |].
      symmetry. exact Heq.
Qed.

(** A value between the first and the last edge has a bucket. *)
Lemma in_range_has_code (edges : list Qc) (c : Qc) :
  is_monotonic_increasing edges = true ->
  (2 <= length edges)%nat ->
  nth 0 edges 0 <= c -> c <= nth (length edges - 1) edges 0 ->
  exists i, cut_code edges c = Some i.
Proof.
  intros Hm Hlen Hlo Hhi.
  destruct (Qcle_lt_or_eq _ _ Hlo) as [Hlt | Heq].
  - pose proof (searchsorted_bound edges c) as Hb.
    assert (K0 : searchsorted_left edges c <> 0%nat).
    { intros K. destruct edges as [| b0 rest]; [simpl in Hlen; lia |].
      simpl in K, Hlt. apply Qcltb_lt in Hlt. rewrite Hlt in K. discriminate. }
    assert (K1 : searchsorted_left edges c <> length edges).
    { intros K. apply (Qcle_not_lt _ _ Hhi). apply searchsorted_below. lia. }
    exists (searchsorted_left edges c - 1)%nat.
    apply (cut_code_in_bucket edges _ _ Hm). split; [lia |]. left. split.
    + apply searchsorted_below. lia.
    + replace (searchsorted_left edges c - 1 + 1)%nat
        with (searchsorted_left edges c) by lia.
      apply searchsorted_stop. lia.
  - exists 0%nat. apply (cut_code_in_bucket edges _ _ Hm).
    split; [lia |]. right. split; [reflexivity | symmetry; exact Heq].
Qed.

Section Histogram.

Variable np_log10 : Qc -> Qc.
Variable np_power10 : Qc -> Qc.

(** Over a positive minimum the body of [create_cost_buckets] runs as
    written. *)
Lemma create_cost_buckets_positive (df : DataFrame) (n : nat) (lo hi : Qc) :
  series_min (cost_column df) = Some lo ->
  series_max (cost_column df) = Some hi ->
  0 < lo ->
  create_cost_buckets np_log10 np_power10 df n
  = match pd_cut (cost_column df) (make_bucket_edges np_log10 np_power10 lo hi n)
            (make_bucket_labels (make_bucket_edges np_log10 np_power10 lo hi n)) with
    | Return codes =>
        Return (df_set_cost_bucket df codes,
                make_bucket_edges np_log10 np_power10 lo hi n,
                make_bucket_labels (make_bucket_edges np_log10 np_power10 lo hi n))
    | Raised e => Raised e
    end.
Proof.
  intros Hmin Hmax Hpos. unfold create_cost_buckets.
  rewrite Hmin, Hmax. apply Qcltb_lt in Hpos. rewrite Hpos. reflexivity.
Qed.

Lemma make_bucket_edges_ends (lo hi : Qc) (n : nat) :
  (1 <= n)%nat ->
  length (make_bucket_edges np_log10 np_power10 lo hi n) = (n + 1)%nat
  /\ nth 0 (make_bucket_edges np_log10 np_power10 lo hi n) 0 = np_power10 (np_log10 lo)
  /\ nth n (make_bucket_edges np_log10 np_power10 lo hi n) 0 = np_power10 (np_log10 hi).
Proof.
  intros Hn. unfold make_bucket_edges. split; [| split].
  - rewrite length_map. apply np_linspace_samples.
  - rewrite (nth_map_default _ _ 0) by (rewrite np_linspace_samples; lia).
    rewrite np_linspace_first by lia. reflexivity.
  - rewrite (nth_map_default _ _ 0) by (rewrite np_linspace_samples; lia).
    replace n with (n + 1 - 1)%nat at 1 by lia.
    rewrite np_linspace_last by lia. reflexivity.
Qed.

(** With one bucket or more, a call that returns has run over a positive
    minimum. *)
Lemma returned_over_positive (df df' : DataFrame) (n : nat)
    (edges : list Qc) (labels : list string) (lo : Qc) :
  create_cost_buckets np_log10 np_power10 df n = Return (df', edges, labels) ->
  (1 <= n)%nat ->
  series_min (cost_column df) = Some lo ->
  0 < lo.
Proof.
  unfold create_cost_buckets. intros H Hn Hmin. rewrite Hmin in H.
  destruct (series_max (cost_column df)); [| discriminate].
  destruct (Qcltb 0 lo) eqn:E; [apply Qcltb_lt; exact E |].
  replace (n =? 0)%nat with false in H by (symmetry; apply Nat.eqb_neq; lia).
  rewrite andb_false_r in H. discriminate.
Qed.

End Histogram.

(** The first and the last of the bucket edges are the images of the
    minimum and the maximum cost under [10 ** log10]; there are
    [num_buckets + 1] edges. *)
Theorem bucket_edges_ends (np_log10 np_power10 : Qc -> Qc) (lo hi : Qc) (n : nat) :
  (1 <= n)%nat ->
  length (make_bucket_edges np_log10 np_power10 lo hi n) = (n + 1)%nat
  /\ nth 0 (make_bucket_edges np_log10 np_power10 lo hi n) 0 = np_power10 (np_log10 lo)
  /\ nth n (make_bucket_edges np_log10 np_power10 lo hi n) 0 = np_power10 (np_log10 hi).
Proof. apply make_bucket_edges_ends. Qed.

Lemma bucket_edges_ends_witness :
  length (make_bucket_edges log10_chord pow10_chord (qz 100) (qz 100000) 4) = 5%nat
  /\ nth 0 (make_bucket_edges log10_chord pow10_chord (qz 100) (qz 100000) 4) 0
     = pow10_chord (log10_chord (qz 100))
  /\ nth 4 (make_bucket_edges log10_chord pow10_chord (qz 100) (qz 100000) 4) 0
     = pow10_chord (log10_chord (qz 100000)).
Proof. apply (bucket_edges_ends log10_chord pow10_chord (qz 100) (qz 100000) 4). lia. Defined.

(** After a call that returns, the chart has one bar per label, in the
    order of the labels, and the counts of the bars together with the rows
    whose bucket is NaN account for every row. *)
Theorem bucket_counts_account (np_log10 np_power10 : Qc -> Qc)
    (df df' : DataFrame) (n : nat) (edges : list Qc) (labels : list string) :
  create_cost_buckets np_log10 np_power10 df n = Return (df', edges, labels) ->
  exists codes,
    df_cost_bucket df' = Some codes
    /\ length (bucket_counts codes labels) = n
    /\ map fst (bucket_counts codes labels) = labels
    /\ (list_sum (map snd (bucket_counts codes labels))
        + length (filter (fun c => negb (is_coded c)) codes)
        = length (df_rows df))%nat.
Proof.
  intros H.
  pose proof (create_cost_buckets_checks _ _ _ _ _ _ _ H) as (Hm & _ & _ & Hlab).
  assert (Hlen : length labels = n).
  { revert H Hlab. unfold create_cost_buckets.
    destruct (series_min (cost_column df)) as [mn |]; [| discriminate].
    destruct (series_max (cost_column df)) as [mx |]; [| discriminate].
    destruct (Qcltb 0 mn).
    - destruct (pd_cut _ _ _) as [codes | e]; [| discriminate].
      intros [= _ <- _] Hlab. rewrite Hlab.
      unfold make_bucket_edges. rewrite length_map, np_linspace_samples. lia.
    - destruct (Qceqb mn 0 && (n =? 0)%nat) eqn:E; [| discriminate].
      apply andb_true_iff in E. destruct E as [_ E]. apply Nat.eqb_eq in E.
      intros [= _ _ <-]. subst n. reflexivity. }
  apply create_cost_buckets_returns in H. subst df'.
  exists (map (cut_code edges) (cost_column df)). split; [reflexivity |].
  destruct (bucket_counts_sum (map (cut_code edges) (cost_column df)) labels) as [Hfst Hsum].
  { intros i Hi. apply in_map_iff in Hi. destruct Hi as (c & Hc & _).
    apply (cut_code_in_bucket edges c i Hm) in Hc. destruct Hc as [Hc _]. lia. }
  split; [| split; [exact Hfst |]].
  - unfold bucket_counts. rewrite length_map, length_seq. exact Hlen.
  - rewrite Hsum, filter_complement_length.
    unfold cost_column. rewrite !length_map. reflexivity.
Qed.

Lemma bucket_counts_account_witness :
  exists codes,
    df_cost_bucket decades_bucketed = Some codes
    /\ length (bucket_counts codes decades_labels) = 3%nat
    /\ map fst (bucket_counts codes decades_labels) = decades_labels
    /\ (list_sum (map snd (bucket_counts codes decades_labels))
        + length (filter (fun c => negb (is_coded c)) codes)
        = length (df_rows decades_table))%nat.
Proof.
  apply (bucket_counts_account log10_chord pow10_chord decades_table decades_bucketed 3
           decades_edges decades_labels).
  vm_compute. reflexivity.
Defined.

(** When [10 ** log10] gives back the minimum and the maximum cost exactly
    and the call returns, the histogram is complete: every row has a
    bucket, a row of minimum cost is in the first bucket and a row of
    maximum cost in the last, and the counts of the bars add up to the
    number of rows. *)
Theorem exact_ends_give_complete_histogram (np_log10 np_power10 : Qc -> Qc)
    (df df' : DataFrame) (n : nat) (edges : list Qc) (labels : list string)
    (lo hi : Qc) :
  create_cost_buckets np_log10 np_power10 df n = Return (df', edges, labels) ->
  (1 <= n)%nat ->
  series_min (cost_column df) = Some lo ->
  series_max (cost_column df) = Some hi ->
  np_power10 (np_log10 lo) = lo ->
  np_power10 (np_log10 hi) = hi ->
  exists codes,
    df_cost_bucket df' = Some codes
    /\ (forall r, In r (df_rows df) ->
          exists i, (i < n)%nat /\ cut_code edges (estimated_cost r) = Some i)
    /\ cut_code edges lo = Some 0%nat
    /\ cut_code edges hi = Some (n - 1)%nat
    /\ list_sum (map snd (bucket_counts codes labels)) = length (df_rows df).
Proof.
  intros H Hn Hmin Hmax Elo Ehi.
  pose proof (create_cost_buckets_checks _ _ _ _ _ _ _ H) as (Hm & Hd & _ & Hlab).
  pose proof (returned_over_positive _ _ _ _ _ _ _ _ H Hn Hmin) as Hpos.
  assert (Hedges : edges = make_bucket_edges np_log10 np_power10 lo hi n).
  { revert H. rewrite (create_cost_buckets_positive _ _ df n lo hi Hmin Hmax Hpos).
    destruct (pd_cut _ _ _); [| discriminate]. intros [= _ <- _]. reflexivity. }
  destruct (make_bucket_edges_ends np_log10 np_power10 lo hi n Hn) as (Hlen & H0 & Hlast).
  rewrite <- Hedges in Hlen, H0, Hlast. rewrite Elo in H0. rewrite Ehi in Hlast.
  apply create_cost_buckets_returns in H. subst df'.
  apply series_min_spec in Hmin. apply series_max_spec in Hmax.
  destruct Hmin as [Hlo_in Hmin]. destruct Hmax as [Hhi_in Hmax].
  assert (Hbelow : forall c i, cut_code edges c = Some i -> (i < n)%nat).
  { intros c i Hc. apply (cut_code_in_bucket edges c i Hm) in Hc.
    destruct Hc as [Hc _]. lia. }
  assert (Hall : forall r, In r (df_rows df) ->
                           exists i, cut_code edges (estimated_cost r) = Some i).
  { intros r Hr.
    assert (Hc : In (estimated_cost r) (cost_column df))
      by (apply cost_column_In; exists r; auto).
    apply in_range_has_code; [exact Hm | lia | |].
    - rewrite H0. apply Hmin. exact Hc.
    - replace (length edges - 1)%nat with n by lia. rewrite Hlast. apply Hmax. exact Hc. }
  exists (map (cut_code edges) (cost_column df)).
  split; [reflexivity |]. split; [| split; [| split]].
  - intros r Hr. destruct (Hall r Hr) as (i & Hi). exists i. split; [| exact Hi].
    apply (Hbelow _ _ Hi).
  - rewrite <- H0 at 1. apply (cut_code_in_bucket edges _ _ Hm).
    split; [lia |]. right. split; reflexivity.
  - rewrite <- Hlast at 1. apply edge_closes_bucket; [exact Hm | exact Hd | lia | lia].
  - destruct (bucket_counts_sum (map (cut_code edges) (cost_column df)) labels) as [_ Hsum].
    { intros i Hi. apply in_map_iff in Hi. destruct Hi as (c & Hc & _).
      apply Hbelow in Hc. lia. }
    rewrite Hsum. rewrite filter_all.
    + unfold cost_column. rewrite !length_map. reflexivity.
    + intros code Hcode. apply in_map_iff in Hcode. destruct Hcode as (c & <- & Hc).
      apply cost_column_In in Hc. destruct Hc as (r & Hr & <-).
      destruct (Hall r Hr) as (i & ->). reflexivity.
Qed.

Lemma exact_ends_give_complete_histogram_witness :
  exists codes,
    df_cost_bucket decades_bucketed = Some codes
    /\ (forall r, In r (df_rows decades_table) ->
          exists i, (i < 3)%nat /\ cut_code decades_edges (estimated_cost r) = Some i)
    /\ cut_code decades_edges (qz 100) = Some 0%nat
    /\ cut_code decades_edges (qz 100000) = Some (3 - 1)%nat
    /\ list_sum (map snd (bucket_counts codes decades_labels))
       = length (df_rows decades_table).
Proof.
  apply (exact_ends_give_complete_histogram log10_chord pow10_chord
           decades_table decades_bucketed 3 decades_edges decades_labels
           (qz 100) (qz 100000)).
  - vm_compute. reflexivity.
  - lia.
  - reflexivity.
  - reflexivity.
  - vm_compute. reflexivity.
  - vm_compute. reflexivity.
Defined.

(** ** Evenly spaced samples and sorted edges *)

Lemma qz_nonzero (z : Z) : z <> 0%Z -> qz z <> 0.
Proof.
  intros Hz E. apply Hz. unfold qz in E.
  apply Q2Qc_eq_iff in E. apply (inject_Z_injective z 0). exact E.
Qed.

Lemma qz_plus (a b : Z) : qz (a + b) = qz a + qz b.
Proof.
  unfold qz, Qcplus. apply Q2Qc_eq_iff. cbn [this Q2Qc]. rewrite !Qred_correct.
  rewrite inject_Z_plus. reflexivity.
Qed.

Lemma qz_le (a b : Z) : (a <= b)%Z -> qz a <= qz b.
Proof.
  intros H. unfold Qcle, qz. cbn [this Q2Qc]. rewrite !Qred_correct.
  rewrite <- Zle_Qle. exact H.
Qed.

Lemma qn_succ (i : nat) : qn (S i) = qn i + qz 1.
Proof. unfold qn. rewrite Nat2Z.inj_succ, <- qz_plus. f_equal. Qed.

Lemma set_last_same (y : list Qc) (v : Qc) :
  nth (length y - 1) y 0 = v -> (1 <= length y)%nat -> set_last y v = y.
Proof.
  induction y as [| a y IH]; intros H Hlen; [reflexivity |].
  destruct y as [| b y]; [simpl in *; congruence |].
  change (set_last (a :: b :: y) v) with (a :: set_last (b :: y) v).
  f_equal. apply IH; [| simpl; lia].
  replace (length (a :: b :: y) - 1)%nat with (S (length (b :: y) - 1)) in H
    by (simpl; lia).
  exact H.
Qed.

(** In exact arithmetic the samples of [np.linspace] are evenly spaced
    from [start] to [stop]. *)
Lemma np_linspace_closed (start stop : Qc) (num : nat) :
  (2 <= num)%nat ->
  np_linspace start stop num
  = map (fun i => start + qn i * ((stop - start) / qn (num - 1))) (seq 0 num).
Proof.
  intros Hnum.
  assert (Hd : qn (num - 1) <> 0) by (apply qz_nonzero; lia).
  unfold np_linspace.
  replace (1 <? num)%nat with true by (symmetry; apply Nat.ltb_lt; lia).
  replace (0 <? num - 1)%nat with true by (symmetry; apply Nat.ltb_lt; lia).
  set (step := (stop - start) / qn (num - 1)).
  assert (E : map (fun v => v + start)
                (if Qceqb step 0
                 then map (fun i => i / qn (num - 1) * (stop - start)) (arange num)
                 else map (fun i => i * step) (arange num))
              = map (fun i => start + qn i * step) (seq 0 num)).
  { unfold arange. destruct (Qceqb step 0); rewrite !map_map; apply map_ext;
      intros i; unfold step, Qcdiv; ring. }
  rewrite E. apply set_last_same.
  - rewrite length_map, length_seq.
    rewrite (nth_map_default _ _ 0%nat) by (rewrite length_seq; lia).
    rewrite seq_nth by lia. simpl. unfold step. field. exact Hd.
  - rewrite length_map, length_seq. lia.
Qed.

Lemma monotonic_map_seq (f : nat -> Qc) (a k : nat) :
  (forall i, f i <= f (S i)) -> is_monotonic_increasing (map f (seq a k)) = true.
Proof.
  intros H. revert a. induction k as [| k IH]; intros a; [reflexivity |].
  destruct k as [| k]; [reflexivity |].
  change (is_monotonic_increasing (map f (seq a (S (S k)))))
    with (Qcleb (f a) (f (S a)) && is_monotonic_increasing (map f (seq (S a) (S k)))).
  rewrite IH, andb_true_r. apply Qcleb_le, H.
Qed.

Lemma step_nonneg (a b d : Qc) : a <= b -> 0 < d -> 0 <= (b - a) / d.
Proof.
  intros Hab Hd. unfold Qcle, Qclt, Qcdiv, Qcminus, Qcplus, Qcmult, Qcopp, Qcinv in *.
  cbn [this Q2Qc] in *. rewrite !Qred_correct.
  apply Qle_shift_div_l; [exact Hd | lra].
Qed.

Lemma np_linspace_monotonic (p : Qc -> Qc) (start stop : Qc) (num : nat) :
  (forall x y, x <= y -> p x <= p y) ->
  start <= stop ->
  is_monotonic_increasing (map p (np_linspace start stop num)) = true.
Proof.
  intros Hp Hle.
  destruct (le_lt_dec 2 num) as [Hnum | Hnum].
  - rewrite np_linspace_closed by exact Hnum. rewrite map_map.
    apply monotonic_map_seq. intros i. apply Hp.
    assert (Hs : 0 <= (stop - start) / qn (num - 1)).
    { apply step_nonneg; [exact Hle |].
      destruct (Qcle_lt_or_eq 0 (qn (num - 1))) as [H | H].
      - apply (qz_le 0). lia.
      - exact H.
      - exfalso. symmetry in H. revert H. apply qz_nonzero. lia. }
    rewrite qn_succ. change (qz 1) with 1.
    replace (start + (qn i + 1) * ((stop - start) / qn (num - 1)))
      with (start + qn i * ((stop - start) / qn (num - 1))
            + (stop - start) / qn (num - 1)) by ring.
    rewrite <- (Qcplus_0_r (start + qn i * ((stop - start) / qn (num - 1)))) at 1.
    apply Qcplus_le_compat; [apply Qcle_refl | exact Hs].
  - assert (L : (length (map p (np_linspace start stop num)) <= 1)%nat)
      by (rewrite length_map, np_linspace_samples; lia).
    destruct (map p (np_linspace start stop num)) as [| a [| b l]];
      [reflexivity | reflexivity | simpl in L; lia].
Qed.

(** The stand-in for [10 ** x] is monotone. *)
Lemma chord_step (A B x y : Q) (k m : Z) :
  (A == inject_Z 10 ^ k)%Q -> (B == inject_Z 10 ^ m)%Q ->
  (inject_Z k <= x)%Q -> (x < inject_Z (k + 1))%Q ->
  (inject_Z m <= y)%Q -> (x <= y)%Q -> (k <= m)%Z ->
  (A * (1 + 9 * (x - inject_Z k)) <= B * (1 + 9 * (y - inject_Z m)))%Q.
Proof.
  intros HA HB Hkx Hxk Hmy Hxy Hkm.
  assert (PA : (0 < A)%Q) by (rewrite HA; apply Qpower_0_lt; reflexivity).
  assert (PB : (0 < B)%Q) by (rewrite HB; apply Qpower_0_lt; reflexivity).
  rewrite inject_Z_plus in Hxk.
  destruct (Z.eq_dec k m) as [E | N].
  - subst m. rewrite <- HA in HB. rewrite HB.
    apply Qmult_le_l; [exact PA |].
    change (inject_Z 1) with 1%Q in Hxk. lra.
  - assert (Hstep : (A * 10 <= B)%Q).
    { rewrite HA, HB.
      assert (E10 : (inject_Z 10 ^ (k + 1) == inject_Z 10 ^ k * 10)%Q).
      { rewrite Qpower_plus by discriminate. reflexivity. }
      rewrite <- E10. apply Qpower_le_compat_l; [lia | discriminate]. }
    change (inject_Z 1) with 1%Q in Hxk.
    apply Qle_trans with (A * 10)%Q.
    + apply Qmult_le_l; [exact PA | lra].
    + apply Qle_trans with B; [exact Hstep |].
      rewrite <- (Qmult_1_r B) at 1.
      apply Qmult_le_l; [exact PB | lra].
Qed.

Lemma this_mult (a b : Qc) : (this (a * b) == this a * this b)%Q.
Proof. unfold Qcmult. cbn [this Q2Qc]. apply Qred_correct. Qed.

Lemma this_plus (a b : Qc) : (this (a + b) == this a + this b)%Q.
Proof. unfold Qcplus. cbn [this Q2Qc]. apply Qred_correct. Qed.

Lemma this_minus (a b : Qc) : (this (a - b) == this a - this b)%Q.
Proof.
  unfold Qcminus, Qcplus, Qcopp. cbn [this Q2Qc]. rewrite !Qred_correct. reflexivity.
Qed.

Lemma this_qz (z : Z) : (this (qz z) == inject_Z z)%Q.
Proof. unfold qz. cbn [this Q2Qc]. apply Qred_correct. Qed.

Lemma this_pow10z (k : Z) : (this (pow10z k) == inject_Z 10 ^ k)%Q.
Proof. unfold pow10z. cbn [this Q2Qc]. apply Qred_correct. Qed.

Lemma pow10_chord_monotone (x y : Qc) : x <= y -> pow10_chord x <= pow10_chord y.
Proof.
  intros Hxy. unfold pow10_chord. unfold Qcle in *.
  rewrite !this_mult, !this_plus, !this_mult, !this_minus, !this_qz.
  change (inject_Z 1) with 1%Q. change (inject_Z 9) with 9%Q.
  apply chord_step; try apply this_pow10z.
  - apply Qfloor_le.
  - apply Qlt_floor.
  - apply Qfloor_le.
  - exact Hxy.
  - apply Qfloor_resp_le. exact Hxy.
Qed.

(** If [10 ** x] is monotone and [log10] does not put the minimum cost
    above the maximum, the bucket edges never decrease, so over positive
    costs [pd.cut] can only fail on a repeated edge or a repeated label:
    the call returns or raises one of these two errors. *)
Theorem monotone_power_keeps_edges_sorted (np_log10 np_power10 : Qc -> Qc)
    (df : DataFrame) (n : nat) (lo hi : Qc) :
  (forall x y, x <= y -> np_power10 x <= np_power10 y) ->
  series_min (cost_column df) = Some lo ->
  series_max (cost_column df) = Some hi ->
  0 < lo ->
  np_log10 lo <= np_log10 hi ->
  is_monotonic_increasing (make_bucket_edges np_log10 np_power10 lo hi n) = true
  /\ ((exists df' edges labels,
         create_cost_buckets np_log10 np_power10 df n = Return (df', edges, labels))
      \/ create_cost_buckets np_log10 np_power10 df n
         = Raised (ValueError "Bin edges must be unique")
      \/ create_cost_buckets np_log10 np_power10 df n
         = Raised (ValueError "labels must be unique if ordered=True; pass ordered=False for duplicate labels")).
Proof.
  intros Hp Hmin Hmax Hpos Hlog.
  assert (Hm : is_monotonic_increasing (make_bucket_edges np_log10 np_power10 lo hi n) = true)
    by (unfold make_bucket_edges; apply np_linspace_monotonic; assumption).
  split; [exact Hm |].
  rewrite (create_cost_buckets_positive _ _ df n lo hi Hmin Hmax Hpos).
  unfold pd_cut. rewrite Hm. simpl negb. cbv iota.
  destruct (has_duplicates Qceqb _ && negb _); [right; left; reflexivity |].
  destruct (has_duplicates String.eqb _); [right; right; reflexivity |].
  replace (length (make_bucket_labels _) =? _)%nat with true.
  - left. eexists _, _, _. reflexivity.
  - symmetry. apply Nat.eqb_eq. unfold make_bucket_labels.
    rewrite length_map, length_seq. reflexivity.
Qed.

Lemma monotone_power_keeps_edges_sorted_witness :
  is_monotonic_increasing
    (make_bucket_edges log10_chord pow10_chord (qz 100) (qz 100000) 3) = true
  /\ ((exists df' edges labels,
         create_cost_buckets log10_chord pow10_chord decades_table 3
         = Return (df', edges, labels))
      \/ create_cost_buckets log10_chord pow10_chord decades_table 3
         = Raised (ValueError "Bin edges must be unique")
      \/ create_cost_buckets log10_chord pow10_chord decades_table 3
         = Raised (ValueError "labels must be unique if ordered=True; pass ordered=False for duplicate labels")).
Proof.
  apply (monotone_power_keeps_edges_sorted log10_chord pow10_chord
           decades_table 3 (qz 100) (qz 100000)).
  - exact pow10_chord_monotone.
  - reflexivity.
  - reflexivity.
  - reflexivity.
  - vm_compute. discriminate.
Defined.

Lemma successful_call_shape_witness :
  length decades_edges = (3 + 1)%nat
  /\ length decades_labels = 3%nat
  /\ NoDup decades_labels
  /\ is_monotonic_increasing decades_edges = true
  /\ forall c i, cut_code decades_edges c = Some i -> (i < 3)%nat.
Proof.
  apply (successful_call_shape log10_chord pow10_chord decades_table decades_bucketed 3
           decades_edges decades_labels).
  vm_compute. reflexivity.
Defined.

(** ** What [main] displays for a non-empty result *)




(** ** The numbers in a label *)

(** Rounding half to even moves a value by at most one half. *)
Lemma round_half_even_error (q : Qc) :
  (inject_Z (round_half_even q) - (1 # 2) <= this q
   /\ this q <= inject_Z (round_half_even q) + (1 # 2))%Q.
Proof.
  pose proof (Qfloor_le q) as Hlo. pose proof (Qlt_floor q) as Hhi.
  rewrite inject_Z_plus in Hhi. change (inject_Z 1) with 1%Q in Hhi.
  unfold round_half_even.
  destruct (Qcltb (q - qz (Qfloor q)) (qz 1 / qz 2)) eqn:E1.
  - apply Qcltb_lt in E1. unfold Qclt in E1. rewrite this_minus, this_qz in E1.
    change (this (qz 1 / qz 2)) with (1 # 2)%Q in E1. split; lra.
  - apply Qcltb_ge in E1. unfold Qcle in E1. rewrite this_minus, this_qz in E1.
    change (this (qz 1 / qz 2)) with (1 # 2)%Q in E1.
    destruct (Qcltb (qz 1 / qz 2) (q - qz (Qfloor q))) eqn:E2.
    + rewrite inject_Z_plus. change (inject_Z 1) with 1%Q. split; lra.
    + apply Qcltb_ge in E2. unfold Qcle in E2. rewrite this_minus, this_qz in E2.
      change (this (qz 1 / qz 2)) with (1 # 2)%Q in E2.
      destruct (Z.even (Qfloor q)).
      * split; lra.
      * rewrite inject_Z_plus. change (inject_Z 1) with 1%Q. split; lra.
Qed.

Lemma this_div_thousand (v : Qc) : (this (v / qz 1000) == this v * (1 # 1000))%Q.
Proof. unfold Qcdiv. rewrite this_mult. reflexivity. Qed.

Lemma this_div_million (v : Qc) : (this (v / qz 1000000) == this v * (1 # 1000000))%Q.
Proof. unfold Qcdiv. rewrite this_mult. reflexivity. Qed.

Lemma this_times_ten (v : Qc) : (this (v * qz 10) == this v * 10)%Q.
Proof. rewrite this_mult. reflexivity. Qed.

(** The number in the label of a bucket edge is the edge in the unit of
    the label rounded to the nearest: whole euros within half a euro below
    1000, whole thousands within 500 euros below a million, tenths of a
    million within 50000 euros from there on.  The euros and the thousands
    can read 1000, just below the next unit. *)
Theorem edge_label_rounds_to_nearest (v : Qc) :
  (0 <= v -> v < qz 1000 ->
     exists k, format_edge v = (euro ++ digits k)%string
               /\ (0 <= k <= 1000)%Z
               /\ (inject_Z k - (1 # 2) <= this v <= inject_Z k + (1 # 2))%Q)
  /\ (qz 1000 <= v -> v < qz 1000000 ->
        exists k, format_edge v = (euro ++ digits k ++ "K")%string
                  /\ (1 <= k <= 1000)%Z
                  /\ (inject_Z k * 1000 - 500 <= this v <= inject_Z k * 1000 + 500)%Q)
  /\ (qz 1000000 <= v ->
        exists t, format_edge v
                  = (euro ++ (digits (t / 10) ++ "." ++ digits (t mod 10)) ++ "M")%string
                  /\ (10 <= t)%Z
                  /\ (inject_Z t * 100000 - 50000 <= this v
                      <= inject_Z t * 100000 + 50000)%Q).
Proof.
  split; [| split].
  - intros H0 H1. exists (round_half_even v).
    rewrite format_edge_units by exact H1. rewrite fixed0_pos by exact H0.
    split; [reflexivity |]. split; [| apply round_half_even_error].
    pose proof (round_half_even_monotone _ _ H0) as Ha.
    pose proof (round_half_even_monotone _ _ (Qclt_le_weak _ _ H1)) as Hb.
    replace (round_half_even 0) with 0%Z in Ha by (vm_compute; reflexivity).
    replace (round_half_even (qz 1000)) with 1000%Z in Hb by (vm_compute; reflexivity).
    lia.
  - intros H0 H1. exists (round_half_even (v / qz 1000)).
    rewrite format_edge_thousands by assumption.
    assert (P : 0 <= v / qz 1000).
    { apply div_thousand_monotone in H0. eapply Qcle_trans; [| exact H0]. discriminate. }
    rewrite fixed0_pos by exact P.
    split; [reflexivity |]. split.
    + pose proof (round_thousands_positive v H0) as Ha.
      pose proof (round_half_even_monotone _ _
                    (div_thousand_monotone _ _ (Qclt_le_weak _ _ H1))) as Hb.
      replace (round_half_even (qz 1000000 / qz 1000)) with 1000%Z in Hb
        by (vm_compute; reflexivity).
      lia.
    + pose proof (round_half_even_error (v / qz 1000)) as [Ha Hb].
      rewrite this_div_thousand in Ha, Hb. split; lra.
  - intros H0. exists (round_half_even (Qcabs (v / qz 1000000) * qz 10)).
    rewrite format_edge_millions by exact H0.
    assert (P : 0 <= v / qz 1000000).
    { unfold Qcdiv. eapply Qcle_trans; [| apply Qcmult_le_compat_r; [exact H0 | discriminate]].
      discriminate. }
    unfold fixed1. rewrite sign_str_pos, Qcabs_pos by exact P. cbn [append].
    split; [reflexivity |]. split.
    + assert (M : qz 10 <= v / qz 1000000 * qz 10).
      { unfold Qcle in *. rewrite this_times_ten, this_div_million.
        change (this (qz 10)) with 10%Q. change (this (qz 1000000)) with 1000000%Q in H0.
        lra. }
      apply round_half_even_monotone in M.
      replace (round_half_even (qz 10)) with 10%Z in M by (vm_compute; reflexivity).
      exact M.
    + pose proof (round_half_even_error (v / qz 1000000 * qz 10)) as [Ha Hb].
      rewrite this_times_ten, this_div_million in Ha, Hb. split; lra.
Qed.

Lemma edge_label_rounds_to_nearest_witness :
  exists k, format_edge (qz 2500) = (euro ++ digits k ++ "K")%string
            /\ (1 <= k <= 1000)%Z
            /\ (inject_Z k * 1000 - 500 <= this (qz 2500) <= inject_Z k * 1000 + 500)%Q.
Proof.
  apply (proj1 (proj2 (edge_label_rounds_to_nearest (qz 2500)))).
  - discriminate.
  - reflexivity.
Defined.

(* ================================================================== *)
(** * Part IV: [db/extract_schema.py] *)
(* ================================================================== *)

Lemma dict_get_append (k t : string) (v : IndexEntry) (d : IndexDict) :
  dict_get t (dict_append k v d)
  = if String.eqb k t
    then Some (match dict_get k d with Some vs => vs | None => [] end ++ [v])
    else dict_get t d.
Proof.
  induction d as [| [k' vs] d IH]; simpl.
  - destruct (String.eqb k t); reflexivity.
  - destruct (String.eqb k' k) eqn:E.
    + apply String.eqb_eq in E. subst k'. simpl.
      destruct (String.eqb k t); reflexivity.
    + simpl. destruct (String.eqb k' t) eqn:F.
      * apply String.eqb_eq in F. subst k'. rewrite String.eqb_sym, E. reflexivity.
      * exact IH.
Qed.

Lemma dict_append_keys (k x : string) (v : IndexEntry) (d : IndexDict) :
  In x (map fst (dict_append k v d)) <-> x = k \/ In x (map fst d).
Proof.
  induction d as [| [k' vs] d IH]; simpl.
  - intuition congruence.
  - destruct (String.eqb k' k) eqn:E; simpl.
    + apply String.eqb_eq in E. subst k'. intuition congruence.
    + rewrite IH. intuition congruence.
Qed.

Lemma dict_append_NoDup (k : string) (v : IndexEntry) (d : IndexDict) :
  NoDup (map fst d) -> NoDup (map fst (dict_append k v d)).
Proof.
  induction d as [| [k' vs] d IH]; simpl; intros H.
  - constructor; [intros [] | constructor].
  - inversion H as [| a l Hnotin Hnd]; subst.
    destruct (String.eqb k' k) eqn:E; simpl.
    + exact H.
    + constructor; [| apply IH; exact Hnd].
      rewrite dict_append_keys. intros [-> | K]; [| contradiction].
      rewrite String.eqb_refl in E. discriminate.
Qed.

Lemma dict_get_keys (t : string) (d : IndexDict) :
  In t (map fst d) <-> exists vs, dict_get t d = Some vs.
Proof.
  induction d as [| [k' vs] d IH]; simpl.
  - split; [tauto | intros (vs & H); discriminate].
  - destruct (String.eqb k' t) eqn:E.
    + apply String.eqb_eq in E. split; [intros _; exists vs; reflexivity | auto].
    + rewrite IH. split; [| tauto]. intros [K | K]; [| exact K].
      subst k'. rewrite String.eqb_refl in E. discriminate.
Qed.

(** What the loop has built after any number of rows. *)
Lemma group_indexes_from (rest done : list IndexRow) (d : IndexDict) :
  NoDup (map fst d) ->
  (forall t, dict_get t d
             = if existsb (of_table t) done
               then Some (map index_entry (filter (of_table t) done)) else None) ->
  let d' := fold_left (fun d r => dict_append (row_table_name r) (index_entry r) d) rest d in
  NoDup (map fst d')
  /\ forall t, dict_get t d'
               = if existsb (of_table t) (done ++ rest)
                 then Some (map index_entry (filter (of_table t) (done ++ rest)))
                 else None.
Proof.
  revert done d. induction rest as [| r rest IH]; intros done d Hnd Hget; simpl.
  - rewrite app_nil_r. auto.
  - replace (done ++ r :: rest) with ((done ++ [r]) ++ rest)
      by (rewrite <- app_assoc; reflexivity).
    apply IH; [apply dict_append_NoDup; exact Hnd |].
    intros t. rewrite dict_get_append, existsb_app, filter_app, map_app. simpl.
    unfold of_table at 2 4. rewrite orb_false_r.
    destruct (String.eqb (row_table_name r) t) eqn:E.
    + apply String.eqb_eq in E. subst t. rewrite orb_true_r, Hget. simpl.
      destruct (existsb (of_table (row_table_name r)) done) eqn:X; [reflexivity |].
      replace (filter (of_table (row_table_name r)) done) with (@nil IndexRow);
        [reflexivity |].
      symmetry. clear - X. induction done as [| a done IHd]; [reflexivity |].
      simpl in *. apply orb_false_iff in X. destruct X as [Xa Xd].
      rewrite Xa. apply IHd. exact Xd.
    + rewrite orb_false_r, Hget, !app_nil_r. reflexivity.
Qed.

(** The loop loses no row of the index query and mixes none up: the keys
    of [schema["indexes"]] are the tables that have index rows, each once,
    and the list under a table is the entries of that table's rows, in the
    order of the query. *)
Theorem group_indexes_by_table (indexes : list IndexRow) :
  NoDup (map fst (group_indexes indexes))
  /\ (forall t, In t (map fst (group_indexes indexes)) <->
                exists r, In r indexes /\ row_table_name r = t)
  /\ (forall t entries,
        dict_get t (group_indexes indexes) = Some entries ->
        entries = map index_entry (filter (of_table t) indexes))
  /\ (forall r, In r indexes ->
        exists entries,
          dict_get (row_table_name r) (group_indexes indexes) = Some entries
          /\ In (index_entry r) entries).
Proof.
  destruct (group_indexes_from indexes [] []) as [Hnd Hget];
    [constructor | reflexivity |].
  fold (group_indexes indexes) in Hnd, Hget. simpl in Hget.
  assert (Hex : forall t, existsb (of_table t) indexes = true <->
                          exists r, In r indexes /\ row_table_name r = t).
  { intros t. rewrite existsb_exists. unfold of_table.
    split; intros (r & Hr & E); exists r; (split; [exact Hr |]);
      apply String.eqb_eq; exact E. }
  split; [exact Hnd |]. split; [| split].
  - intros t. rewrite dict_get_keys, <- Hex, Hget.
    destruct (existsb (of_table t) indexes).
    + split; [reflexivity | intros _; eexists; reflexivity].
    + split; [intros (vs & K); discriminate | discriminate].
  - intros t entries H. rewrite Hget in H.
    destruct (existsb (of_table t) indexes); [| discriminate].
    injection H as <-. reflexivity.
  - intros r Hr. rewrite Hget.
    replace (existsb (of_table (row_table_name r)) indexes) with true
      by (symmetry; apply Hex; exists r; auto).
    eexists. split; [reflexivity |].
    apply in_map. apply filter_In. split; [exact Hr |].
    unfold of_table. apply String.eqb_refl.
Qed.
